(** * discord-dkp-bot: the auction and DKP core, embedded and verified

    A shallow embedding of the Go packages [internal/event],
    [internal/auction], [internal/dkp] and of the event stores under
    [internal/store], followed by the properties of the specification
    that concern them.

    Conventions of the embedding.
    - Go's [int] is a 64-bit two's complement integer.  It is carried as a
      [Z]; the arithmetic the code performs on it ([Version++], the unary
      minus of [DeductDKP], [DKP += delta]) is written with [int_wrap].
    - [time.Time] is carried as a [Z]: the nanoseconds elapsed since Go's
      zero [time.Time], so the zero value is [0].
    - A method with a pointer receiver becomes a function that takes the
      receiver's value and returns the new value (explicit state passing).
    - A reading of [clock.Clock.Now] is an input of the operation that
      takes it.
    - Tracers, spans, loggers and mutexes carry no state of the domain and
      are left out; every operation is modelled as run under its lock.
    - A [json.RawMessage] is carried as the JSON value its bytes parse to;
      a [Z] inside it, like any [Z] that stands for a Go [int], is meant
      within 64 bits.
    - The [events] table is the one of migration 001, with its column
      types and its unique index. *)

From Stdlib Require Import ZArith Lia Ascii.
From stdpp Require Import base option list strings pretty sorting gmap.

Local Open Scope string_scope.
Local Open Scope Z_scope.
Local Open Scope list_scope.

(** ** Go base types *)

Definition int_min : Z := - 2 ^ 63.
Definition int_max : Z := 2 ^ 63 - 1.

(** Two's complement wrap-around of a mathematical integer into [int]. *)
Definition int_wrap (z : Z) : Z := (z + 2 ^ 63) mod 2 ^ 64 - 2 ^ 63.

(** [time.Time] as nanoseconds since the zero value. *)
Definition Time : Type := Z.
Definition zero_Time : Time := 0.

(** Go's [error]: [errors.New text], [fmt.Errorf] with its formatted
    message, or [fmt.Errorf] with a message prefix and the error wrapped
    by [%w].  A [nil] error is [None : option error]. *)
Inductive error : Type :=
| errors_New (text : string)
| fmt_Errorf (msg : string)
| fmt_Errorf_w (prefix : string) (wrapped : error).

(** A Go pair [(T, error)]. *)
Inductive result (A : Type) : Type :=
| Ok (a : A)
| Err (e : error).
Arguments Ok {A} a.
Arguments Err {A} e.

(** ** encoding/json, at the level of parsed values *)

Module json.

(** [Number n] is an integer literal that fits 64 bits, which
    [strconv.ParseInt] reads as [n]; [OtherNumber] is every other number
    literal, one with a fraction or an exponent, or an integer beyond 64
    bits.  The program itself writes the integers of its [int] fields
    and no other number. *)
#[local] Unset Elimination Schemes.
Inductive Value : Type :=
| Null
| Bool (b : bool)
| Number (n : Z)
| OtherNumber (literal : string)
| String (s : string)
| Array (items : list Value)
| Object (members : list (string * Value)).
#[local] Set Elimination Schemes.

(** [json.RawMessage]: bytes that parse to a value, or bytes that do
    not (such as [{invalid]). *)
Inductive RawMessage : Type :=
| Valid (v : Value)
| Invalid.

(** Decoding a value into a field that already holds [old]: [null]
    leaves the field alone, a value of another kind is an
    [UnmarshalTypeError]. *)
Definition decodeString (v : Value) (old : string) : option string :=
  match v with
  | Null => Some old
  | String s => Some s
  | _ => None
  end.

(** An [int] field takes an integer literal that fits 64 bits and no
    other number. *)
Definition decodeInt (v : Value) (old : Z) : option Z :=
  match v with
  | Null => Some old
  | Number n => Some n
  | _ => None
  end.

Definition toUpper (c : Ascii.ascii) : Ascii.ascii :=
  let n := Ascii.N_of_ascii c in
  if ((97 <=? n) && (n <=? 122))%N then Ascii.ascii_of_N (n - 32) else c.

(** [foldName], the folding [encoding/json] applies to a key that is not
    a tag as it stands.  The letters of ASCII go to upper case, and so do
    the two letters outside ASCII that fold into it: the long s (U+017F,
    the bytes 197 191) to S and the Kelvin sign (U+212A, the bytes 226
    132 170) to K.  Every other byte outside ASCII is kept here: its
    letter folds to a letter outside ASCII, so the key matches no ASCII
    tag either way, and the tags of this program are ASCII. *)
Fixpoint foldName (s : string) : string :=
  match s with
  | String.String "197"%char (String.String "191"%char rest) =>
      String.String "S"%char (foldName rest)
  | String.String "226"%char
      (String.String "132"%char (String.String "170"%char rest)) =>
      String.String "K"%char (foldName rest)
  | String.String c rest => String.String (toUpper c) (foldName rest)
  | String.EmptyString => String.EmptyString
  end.

(** Whether the key [k] of a member selects the field tagged [tag]: by
    an exact match or, failing that, by a match of the folded names.
    The tags of one struct of this program stay pairwise distinct when
    folded, so a key selects the same field whether the exact matches
    are tried first, as Go does, or not. *)
Definition matches (k tag : string) : bool :=
  String.eqb k tag || String.eqb (foldName k) (foldName tag).

(** [json.Unmarshal] into a struct: the members of the object are
    visited in order, [setField] stores a member into the field its key
    selects (a member whose key selects no field is skipped); a later
    member overrides an earlier one for the same field. *)
Fixpoint decodeMembers {T : Type}
    (setField : string -> Value -> T -> option T)
    (members : list (string * Value)) (d : T) : option T :=
  match members with
  | [] => Some d
  | (k, v) :: rest =>
      match setField k v d with
      | Some d' => decodeMembers setField rest d'
      | None => None
      end
  end.

Definition Unmarshal {T : Type}
    (setField : string -> Value -> T -> option T)
    (data : RawMessage) (d : T) : option T :=
  match data with
  | Invalid => None
  | Valid Null => Some d
  | Valid (Object members) => decodeMembers setField members d
  | Valid _ => None
  end.

(** The error of a failed [Unmarshal] (a [SyntaxError] or an
    [UnmarshalTypeError]; the program only wraps it). *)
Definition UnmarshalError : error := errors_New "json: cannot unmarshal".

End json.

(** ** internal/event *)

Module event.

(** [type Type string] *)
Definition Type_ : Type := string.

Definition AuctionStarted : Type_ := "auction.started".
Definition AuctionBidPlaced : Type_ := "auction.bid_placed".
Definition AuctionClosed : Type_ := "auction.closed".
Definition AuctionCancelled : Type_ := "auction.cancelled".
Definition DKPAwarded : Type_ := "dkp.awarded".
Definition DKPDeducted : Type_ := "dkp.deducted".
Definition DKPAdjusted : Type_ := "dkp.adjusted".
Definition PlayerRegistered : Type_ := "player.registered".

Record Event : Type := mkEvent {
  ID : string;
  AggregateID : string;
  Type' : Type_;
  Data : json.RawMessage;
  Version : Z;
  CreatedAt : Time
}.

Record AuctionStartedData : Type := mkAuctionStartedData {
  ItemName : string;
  StartedBy : string;
  MinBid : Z;
  Duration : Z
}.

Record BidPlacedData : Type := mkBidPlacedData {
  bp_PlayerID : string;
  bp_Amount : Z
}.

Record AuctionClosedData : Type := mkAuctionClosedData {
  WinnerID : string;
  ac_Amount : Z
}.

Record DKPChangeData : Type := mkDKPChangeData {
  dc_PlayerID : string;
  dc_Amount : Z;
  Reason : string
}.

Record PlayerRegisteredData : Type := mkPlayerRegisteredData {
  DiscordID : string;
  CharacterName : string
}.

(** [json.Marshal] of each payload, by its struct tags. *)
Definition marshalAuctionStartedData (d : AuctionStartedData) : json.RawMessage :=
  json.Valid (json.Object
    [("item_name", json.String (ItemName d));
     ("started_by", json.String (StartedBy d));
     ("min_bid", json.Number (MinBid d));
     ("duration", json.Number (Duration d))]).

Definition marshalBidPlacedData (d : BidPlacedData) : json.RawMessage :=
  json.Valid (json.Object
    [("player_id", json.String (bp_PlayerID d));
     ("amount", json.Number (bp_Amount d))]).

Definition marshalAuctionClosedData (d : AuctionClosedData) : json.RawMessage :=
  json.Valid (json.Object
    [("winner_id", json.String (WinnerID d));
     ("amount", json.Number (ac_Amount d))]).

Definition marshalDKPChangeData (d : DKPChangeData) : json.RawMessage :=
  json.Valid (json.Object
    [("player_id", json.String (dc_PlayerID d));
     ("amount", json.Number (dc_Amount d));
     ("reason", json.String (Reason d))]).

Definition marshalPlayerRegisteredData (d : PlayerRegisteredData) : json.RawMessage :=
  json.Valid (json.Object
    [("discord_id", json.String (DiscordID d));
     ("character_name", json.String (CharacterName d))]).

(** The field setters [json.Unmarshal] uses for the two payloads that
    [auction.Replay] decodes. *)
Definition setAuctionStartedField (k : string) (v : json.Value)
    (d : AuctionStartedData) : option AuctionStartedData :=
  if json.matches k "item_name" then
    s ← json.decodeString v (ItemName d);
    Some (mkAuctionStartedData s (StartedBy d) (MinBid d) (Duration d))
  else if json.matches k "started_by" then
    s ← json.decodeString v (StartedBy d);
    Some (mkAuctionStartedData (ItemName d) s (MinBid d) (Duration d))
  else if json.matches k "min_bid" then
    n ← json.decodeInt v (MinBid d);
    Some (mkAuctionStartedData (ItemName d) (StartedBy d) n (Duration d))
  else if json.matches k "duration" then
    n ← json.decodeInt v (Duration d);
    Some (mkAuctionStartedData (ItemName d) (StartedBy d) (MinBid d) n)
  else Some d.

Definition setBidPlacedField (k : string) (v : json.Value)
    (d : BidPlacedData) : option BidPlacedData :=
  if json.matches k "player_id" then
    s ← json.decodeString v (bp_PlayerID d);
    Some (mkBidPlacedData s (bp_Amount d))
  else if json.matches k "amount" then
    n ← json.decodeInt v (bp_Amount d);
    Some (mkBidPlacedData (bp_PlayerID d) n)
  else Some d.

(** [var d T; json.Unmarshal(data, &d)] starts from the zero value. *)
Definition unmarshalAuctionStartedData (data : json.RawMessage)
    : option AuctionStartedData :=
  json.Unmarshal setAuctionStartedField data (mkAuctionStartedData "" "" 0 0).

Definition unmarshalBidPlacedData (data : json.RawMessage)
    : option BidPlacedData :=
  json.Unmarshal setBidPlacedField data (mkBidPlacedData "" 0).

(** [event.Store] *)
Class Store (S : Type) : Type := {
  Append : S -> list Event -> S * option error;
  Load : S -> string -> result (list Event);
  LoadByType : S -> Type_ -> result (list Event)
}.

End event.

(** ** internal/store: the player record and its repository *)

Module store.

Record Player : Type := mkPlayer {
  ID : string;
  DiscordID : string;
  CharacterName : string;
  DKP : Z;
  CreatedAt : Time;
  UpdatedAt : Time
}.

(** [PlayerRepository].  [Create] receives the player by pointer and
    fills in its [ID]: it returns the player as the caller sees it
    afterwards. *)
Class PlayerRepository (P : Type) : Type := {
  Create : P -> Player -> P * Player * option error;
  GetByDiscordID : P -> string -> result Player;
  GetByCharacterName : P -> string -> result Player;
  List : P -> result (list Player);
  UpdateDKP : P -> string -> Z -> P * option error
}.

End store.

(** ** internal/auction: the aggregate *)

Module auction.

Definition ErrAuctionClosed : error := errors_New "auction is closed".
Definition ErrBidTooLow : error := errors_New "bid is below minimum".
Definition ErrSelfOutbid : error := errors_New "you are already the highest bidder".
Definition ErrInsufficientDKP : error := errors_New "insufficient DKP".

Record Bid : Type := mkBid {
  PlayerID : string;
  Amount : Z;
  Time' : Time
}.

(** The aggregate root.  [events] is the buffer of pending events. *)
Record Auction : Type := mkAuction {
  ID : string;
  ItemName : string;
  StartedBy : string;
  MinBid : Z;
  Status : string;
  Bids : list Bid;
  Version : Z;
  events : list event.Event
}.

(** [Auction{}] *)
Definition zero_Auction : Auction := mkAuction "" "" "" 0 "" [] 0 [].

Definition recordEvent (a : Auction) (t : event.Type_) (data : json.RawMessage)
    : Auction :=
  let v := int_wrap (Version a + 1) in
  mkAuction (ID a) (ItemName a) (StartedBy a) (MinBid a) (Status a) (Bids a) v
    (events a ++ [event.mkEvent "" (ID a) t data v zero_Time]).

Definition New (id itemName startedBy : string) (minBid : Z) (duration : Z)
    : Auction :=
  recordEvent (mkAuction id itemName startedBy minBid "open" [] 0 [])
    event.AuctionStarted
    (event.marshalAuctionStartedData
       (event.mkAuctionStartedData itemName startedBy minBid duration)).

(** [nil] when there is no bid, else the last element of [Bids]. *)
Definition highestBid (a : Auction) : option Bid := last (Bids a).

Definition HighestBid (a : Auction) : option Bid := highestBid a.

(** [now] is the reading [a.clock.Now().UTC()]. *)
Definition PlaceBid (a : Auction) (playerID : string) (amount playerDKP : Z)
    (now : Time) : Auction * option error :=
  if negb (String.eqb (Status a) "open") then (a, Some ErrAuctionClosed)
  else if amount <? MinBid a then (a, Some ErrBidTooLow)
  else if amount >? playerDKP then (a, Some ErrInsufficientDKP)
  else if match highestBid a with
          | Some highest => String.eqb (PlayerID highest) playerID
          | None => false
          end
  then (a, Some ErrSelfOutbid)
  else if match highestBid a with
          | Some highest => amount <=? Amount highest
          | None => false
          end
  then (a, Some ErrBidTooLow)
  else
    let a1 := mkAuction (ID a) (ItemName a) (StartedBy a) (MinBid a) (Status a)
                (Bids a ++ [mkBid playerID amount now]) (Version a) (events a) in
    (recordEvent a1 event.AuctionBidPlaced
       (event.marshalBidPlacedData (event.mkBidPlacedData playerID amount)),
     None).

Definition setStatus (a : Auction) (s : string) : Auction :=
  mkAuction (ID a) (ItemName a) (StartedBy a) (MinBid a) s (Bids a)
    (Version a) (events a).

(** Returns the new state, the winner and the error. *)
Definition Close (a : Auction) : Auction * option Bid * option error :=
  if negb (String.eqb (Status a) "open") then (a, None, Some ErrAuctionClosed)
  else
    let a1 := setStatus a "closed" in
    match highestBid a1 with
    | Some highest =>
        (recordEvent a1 event.AuctionClosed
           (event.marshalAuctionClosedData
              (event.mkAuctionClosedData (PlayerID highest) (Amount highest))),
         Some highest, None)
    | None =>
        (recordEvent a1 event.AuctionClosed
           (event.marshalAuctionClosedData (event.mkAuctionClosedData "" 0)),
         None, None)
    end.

Definition Cancel (a : Auction) : Auction * option error :=
  if negb (String.eqb (Status a) "open") then (a, Some ErrAuctionClosed)
  else
    (recordEvent (setStatus a "canceled") event.AuctionCancelled
       (json.Valid (json.Object [])),
     None).

(** Returns the drained aggregate and the events that were pending. *)
Definition PendingEvents (a : Auction) : Auction * list event.Event :=
  (mkAuction (ID a) (ItemName a) (StartedBy a) (MinBid a) (Status a) (Bids a)
     (Version a) [],
   events a).

(** The body of the loop of [Replay]. *)
Definition replayEvent (a : Auction) (e : event.Event) : result Auction :=
  let setVersion (a' : Auction) : Auction :=
    mkAuction (ID a') (ItemName a') (StartedBy a') (MinBid a') (Status a')
      (Bids a') (event.Version e) (events a') in
  if String.eqb (event.Type' e) event.AuctionStarted then
    match event.unmarshalAuctionStartedData (event.Data e) with
    | None => Err (fmt_Errorf_w "unmarshalling started event" json.UnmarshalError)
    | Some d =>
        Ok (setVersion
              (mkAuction (event.AggregateID e) (event.ItemName d)
                 (event.StartedBy d) (event.MinBid d) "open" (Bids a)
                 (Version a) (events a)))
    end
  else if String.eqb (event.Type' e) event.AuctionBidPlaced then
    match event.unmarshalBidPlacedData (event.Data e) with
    | None => Err (fmt_Errorf_w "unmarshalling bid event" json.UnmarshalError)
    | Some d =>
        Ok (setVersion
              (mkAuction (ID a) (ItemName a) (StartedBy a) (MinBid a) (Status a)
                 (Bids a ++ [mkBid (event.bp_PlayerID d) (event.bp_Amount d)
                               (event.CreatedAt e)])
                 (Version a) (events a)))
    end
  else if String.eqb (event.Type' e) event.AuctionClosed then
    Ok (setVersion (setStatus a "closed"))
  else if String.eqb (event.Type' e) event.AuctionCancelled then
    Ok (setVersion (setStatus a "canceled"))
  else Ok (setVersion a).

Fixpoint replayLoop (a : Auction) (evs : list event.Event) : result Auction :=
  match evs with
  | [] => Ok a
  | e :: rest =>
      match replayEvent a e with
      | Ok a' => replayLoop a' rest
      | Err err => Err err
      end
  end.

Definition Replay (evs : list event.Event) : result Auction :=
  match evs with
  | [] => Err (fmt_Errorf "no events to replay")
  | _ => replayLoop zero_Auction evs
  end.

(** *** The coordinator ([Manager]) *)

Module Manager.

(** [auctions] maps an auction id to the aggregate it points to; an
    aggregate mutated through the pointer is written back. *)
Record t (S P : Type) : Type := mk {
  auctions : gmap string Auction;
  events : S;
  players : P
}.
Arguments mk {S P} auctions events players.
Arguments auctions {S P} _.
Arguments events {S P} _.
Arguments players {S P} _.

Section Methods.
Context {S P : Type} `{!event.Store S} `{!store.PlayerRepository P}.

Definition NewManager (evs : S) (pls : P) : t S P := mk ∅ evs pls.

(** [time.Time.UnixNano]: the zero [time.Time] lies 62135596800
    seconds before the Unix epoch. *)
Definition UnixNano (now : Time) : Z :=
  int_wrap (now - 62135596800 * 1000000000).

(** [now] is the reading [m.clock.Now()]. *)
Definition StartAuction (m : t S P) (itemName startedBy : string)
    (minBid duration : Z) (now : Time) : t S P * result Auction :=
  let id := "auction-" +:+ pretty (UnixNano now) in
  let a := New id itemName startedBy minBid duration in
  let '(a, pending) := PendingEvents a in
  let '(es, err) := event.Append (events m) pending in
  match err with
  | Some e =>
      (mk (auctions m) es (players m),
       Err (fmt_Errorf_w "persisting auction started events" e))
  | None => (mk (<[id := a]> (auctions m)) es (players m), Ok a)
  end.

(** [now] is the reading of the aggregate's clock, should the bid
    be accepted. *)
Definition PlaceBid (m : t S P) (auctionID discordID : string) (amount : Z)
    (now : Time) : t S P * option error :=
  match auctions m !! auctionID with
  | None => (m, Some (fmt_Errorf ("auction " +:+ auctionID +:+ " not found")))
  | Some a =>
      match store.GetByDiscordID (players m) discordID with
      | Err e => (m, Some (fmt_Errorf_w "player not registered" e))
      | Ok player =>
          match auction.PlaceBid a (store.ID player) amount (store.DKP player) now with
          | (a, Some e) => (mk (<[auctionID := a]> (auctions m)) (events m) (players m), Some e)
          | (a, None) =>
              let '(a, pending) := PendingEvents a in
              (* a failed append is logged, nothing else *)
              let '(es, _) := event.Append (events m) pending in
              (mk (<[auctionID := a]> (auctions m)) es (players m), None)
          end
      end
  end.

(** Returns the result message and the error. *)
Definition CloseAuction (m : t S P) (auctionID : string)
    : t S P * result string :=
  match auctions m !! auctionID with
  | None => (m, Err (fmt_Errorf ("auction " +:+ auctionID +:+ " not found")))
  | Some a =>
      match Close a with
      | (a, _, Some e) =>
          (mk (<[auctionID := a]> (auctions m)) (events m) (players m), Err e)
      | (a, winner, None) =>
          let '(a, pending) := PendingEvents a in
          (* a failed append is logged, nothing else *)
          let '(es, _) := event.Append (events m) pending in
          let m' := mk (delete auctionID (auctions m)) es (players m) in
          match winner with
          | None => (m', Ok "")
          | Some w =>
              (m', Ok ("Auction `" +:+ auctionID +:+ "` closed! Winner: **"
                       +:+ PlayerID w +:+ "** with **" +:+ pretty (Amount w)
                       +:+ " DKP**"))
          end
      end
  end.

Definition ReplayAuction (m : t S P) (auctionID : string) : result Auction :=
  match event.Load (events m) auctionID with
  | Err e => Err (fmt_Errorf_w "loading events" e)
  | Ok evs => Replay evs
  end.

(** The ids of [started], each once, in order of first occurrence. *)
Fixpoint dedupIDs (seen : gset string) (started : list event.Event)
    : list string :=
  match started with
  | [] => []
  | e :: rest =>
      if decide (event.AggregateID e ∈ seen) then dedupIDs seen rest
      else event.AggregateID e :: dedupIDs ({[event.AggregateID e]} ∪ seen) rest
  end.

Fixpoint recoverLoop (m : t S P) (ids : list string) (recovered : Z)
    : t S P * Z :=
  match ids with
  | [] => (m, recovered)
  | id :: rest =>
      match ReplayAuction m id with
      | Err _ => recoverLoop m rest recovered
      | Ok a =>
          if negb (String.eqb (Status a) "open") then recoverLoop m rest recovered
          else recoverLoop (mk (<[id := a]> (auctions m)) (events m) (players m))
                 rest (int_wrap (recovered + 1))
      end
  end.

Definition RecoverOpenAuctions (m : t S P) : t S P * result Z :=
  match event.LoadByType (events m) event.AuctionStarted with
  | Err e => (m, Err (fmt_Errorf_w "loading auction started events" e))
  | Ok started =>
      let '(m', n) := recoverLoop m (dedupIDs ∅ started) 0 in
      (m', Ok n)
  end.

End Methods.

End Manager.

End auction.

(** ** internal/dkp *)

Module dkp.

Module Manager.

Record t (S P : Type) : Type := mk {
  players : P;
  events : S
}.
Arguments mk {S P} players events.
Arguments players {S P} _.
Arguments events {S P} _.

Section Methods.
Context {S P : Type} `{!event.Store S} `{!store.PlayerRepository P}.

Definition NewManager (pls : P) (evs : S) : t S P := mk pls evs.

Definition RegisterPlayer (m : t S P) (discordID characterName : string)
    : t S P * result store.Player :=
  let p := store.mkPlayer "" discordID characterName 0 zero_Time zero_Time in
  match store.Create (players m) p with
  | (pls, _, Some e) => (mk pls (events m), Err (fmt_Errorf_w "creating player" e))
  | (pls, p, None) =>
      let evt := event.mkEvent "" (store.ID p) event.PlayerRegistered
                   (event.marshalPlayerRegisteredData
                      (event.mkPlayerRegisteredData discordID characterName))
                   1 zero_Time in
      (* a failed append is logged, nothing else *)
      let '(es, _) := event.Append (events m) [evt] in
      (mk pls es, Ok p)
  end.

Definition AwardDKP (m : t S P) (playerID : string) (amount : Z) (reason : string)
    : t S P * option error :=
  match store.UpdateDKP (players m) playerID amount with
  | (pls, Some e) => (mk pls (events m), Some (fmt_Errorf_w "awarding DKP" e))
  | (pls, None) =>
      let evt := event.mkEvent "" playerID event.DKPAwarded
                   (event.marshalDKPChangeData
                      (event.mkDKPChangeData playerID amount reason))
                   0 zero_Time in
      (* a failed append is logged, nothing else *)
      let '(es, _) := event.Append (events m) [evt] in
      (mk pls es, None)
  end.

Definition DeductDKP (m : t S P) (playerID : string) (amount : Z) (reason : string)
    : t S P * option error :=
  match store.UpdateDKP (players m) playerID (int_wrap (- amount)) with
  | (pls, Some e) => (mk pls (events m), Some (fmt_Errorf_w "deducting DKP" e))
  | (pls, None) =>
      let evt := event.mkEvent "" playerID event.DKPDeducted
                   (event.marshalDKPChangeData
                      (event.mkDKPChangeData playerID (int_wrap (- amount)) reason))
                   0 zero_Time in
      (* a failed append is logged, nothing else *)
      let '(es, _) := event.Append (events m) [evt] in
      (mk pls es, None)
  end.

Definition GetPlayer (m : t S P) (discordID : string) : result store.Player :=
  store.GetByDiscordID (players m) discordID.

Definition ListPlayers (m : t S P) : result (list store.Player) :=
  store.List (players m).

End Methods.

End Manager.

End dkp.

(** ** internal/store/postgres and internal/store/entstore: the event store

    Both drivers send the same three SQL statements to the [events] table
    of migration 001; this is the table, with its unique index on
    [(aggregate_id, version)] and its column defaults. *)

Module postgres.

(** [rows] is the table in insertion order, [up] tells whether the
    database answers, [now] is the database's [now()]. *)
Record EventStore : Type := mkEventStore {
  rows : list event.Event;
  up : bool;
  now : Time
}.

Definition driverError : error := errors_New "driver: bad connection".
Definition uniqueViolation : error :=
  errors_New "duplicate key value violates unique constraint idx_events_aggregate_version".

Definition invalidJSON : error := errors_New "invalid input syntax for type json".
Definition integerOutOfRange (v : Z) : error :=
  errors_New ("value " +:+ pretty v +:+ " is out of range for type integer").

(** The range of the column [version INTEGER]. *)
Definition int32_min : Z := - 2 ^ 31.
Definition int32_max : Z := 2 ^ 31 - 1.

(** Whether the unique index already holds the key of [e]. *)
Definition conflicts (table : list event.Event) (e : event.Event) : bool :=
  existsb (fun r => String.eqb (event.AggregateID r) (event.AggregateID e)
                    && (event.Version r =? event.Version e)) table.

(** One [INSERT INTO events (aggregate_id, type, data, version)].  The
    column [data JSONB NOT NULL] refuses bytes that are not JSON, the
    column [version INTEGER] a version outside 32 bits, and the unique
    index a key the table holds; [id] and [created_at] take their
    defaults. *)
Definition insertRow (table : list event.Event) (now : Time) (e : event.Event)
    : result (list event.Event) :=
  match event.Data e with
  | json.Invalid => Err invalidJSON
  | json.Valid _ =>
      if negb ((int32_min <=? event.Version e) && (event.Version e <=? int32_max))
      then Err (integerOutOfRange (event.Version e))
      else if conflicts table e then Err uniqueViolation
      else Ok (table ++ [event.mkEvent ("uuid-" +:+ pretty (length table))
                           (event.AggregateID e) (event.Type' e) (event.Data e)
                           (event.Version e) now])
  end.

Fixpoint insertAll (table : list event.Event) (now : Time) (evs : list event.Event)
    : result (list event.Event) :=
  match evs with
  | [] => Ok table
  | e :: rest =>
      match insertRow table now e with
      | Err err =>
          Err (fmt_Errorf_w
                 ("inserting event (aggregate=" +:+ event.AggregateID e
                  +:+ ", version=" +:+ pretty (event.Version e) +:+ ")") err)
      | Ok table' => insertAll table' now rest
      end
  end.

(** The whole batch runs in one transaction: an error rolls it back. *)
Definition Append (s : EventStore) (evs : list event.Event)
    : EventStore * option error :=
  if negb (up s) then (s, Some (fmt_Errorf_w "beginning transaction" driverError))
  else match insertAll (rows s) (now s) evs with
       | Err e => (s, Some e)
       | Ok table => (mkEventStore table (up s) (now s), None)
       end.

(** [ORDER BY key ASC] *)
Fixpoint insertBy (key : event.Event -> Z) (e : event.Event) (l : list event.Event)
    : list event.Event :=
  match l with
  | [] => [e]
  | x :: rest => if key e <? key x then e :: x :: rest else x :: insertBy key e rest
  end.

Definition orderBy (key : event.Event -> Z) (l : list event.Event)
    : list event.Event :=
  fold_left (fun acc e => insertBy key e acc) l [].

Definition Load (s : EventStore) (aggregateID : string) : result (list event.Event) :=
  if negb (up s) then Err (fmt_Errorf_w "loading events" driverError)
  else Ok (orderBy event.Version
             (filter (fun e => event.AggregateID e = aggregateID) (rows s))).

Definition LoadByType (s : EventStore) (eventType : event.Type_)
    : result (list event.Event) :=
  if negb (up s) then Err (fmt_Errorf_w "loading events by type" driverError)
  else Ok (orderBy event.CreatedAt
             (filter (fun e => event.Type' e = eventType) (rows s))).

#[global] Instance EventStore_Store : event.Store EventStore :=
  {| event.Append := Append; event.Load := Load; event.LoadByType := LoadByType |}.

End postgres.

(** ** The test doubles of dkp_test and auction_test *)

Module dkp_test.

(** [players] is keyed by Discord id.  Go ranges over the map in an
    unspecified order; here the order is that of the keys, which only
    matters when two players carry the same [ID]. *)
Record mockPlayerRepo : Type := mkMockPlayerRepo {
  players : gmap string store.Player;
  err : option error
}.

Definition newMockPlayerRepo : mockPlayerRepo := mkMockPlayerRepo ∅ None.

Definition Create (m : mockPlayerRepo) (p : store.Player)
    : mockPlayerRepo * store.Player * option error :=
  match err m with
  | Some e => (m, p, Some e)
  | None =>
      let p := store.mkPlayer ("test-id-" +:+ store.DiscordID p) (store.DiscordID p)
                 (store.CharacterName p) (store.DKP p) (store.CreatedAt p)
                 (store.UpdatedAt p) in
      (mkMockPlayerRepo (<[store.DiscordID p := p]> (players m)) (err m), p, None)
  end.

Definition GetByDiscordID (m : mockPlayerRepo) (discordID : string)
    : result store.Player :=
  match err m with
  | Some e => Err e
  | None =>
      match players m !! discordID with
      | Some p => Ok p
      | None => Err (fmt_Errorf "player not found")
      end
  end.

Definition GetByCharacterName (m : mockPlayerRepo) (name : string)
    : result store.Player :=
  match list_find (fun kp => store.CharacterName kp.2 = name)
          (map_to_list (players m)) with
  | Some (_, (_, p)) => Ok p
  | None => Err (fmt_Errorf "player not found")
  end.

Definition List (m : mockPlayerRepo) : result (list store.Player) :=
  Ok ((map_to_list (players m)).*2).

Definition UpdateDKP (m : mockPlayerRepo) (id : string) (delta : Z)
    : mockPlayerRepo * option error :=
  match err m with
  | Some e => (m, Some e)
  | None =>
      match list_find (fun kp => store.ID kp.2 = id) (map_to_list (players m)) with
      | Some (_, (k, p)) =>
          let p := store.mkPlayer (store.ID p) (store.DiscordID p)
                     (store.CharacterName p) (int_wrap (store.DKP p + delta))
                     (store.CreatedAt p) (store.UpdatedAt p) in
          (mkMockPlayerRepo (<[k := p]> (players m)) (err m), None)
      | None => (m, Some (fmt_Errorf ("player " +:+ id +:+ " not found")))
      end
  end.

#[global] Instance mockPlayerRepo_PlayerRepository
    : store.PlayerRepository mockPlayerRepo :=
  {| store.Create := Create;
     store.GetByDiscordID := GetByDiscordID;
     store.GetByCharacterName := GetByCharacterName;
     store.List := List;
     store.UpdateDKP := UpdateDKP |}.

End dkp_test.

Module auction_test.

(** [appendFn], when set, replaces the append: it gets the batch and
    gives the error to return.  The [mockEventStore] of dkp_test is this
    one without [appendFn]. *)
Record mockEventStore : Type := mkMockEventStore {
  events : list event.Event;
  appendFn : option (list event.Event -> option error)
}.

Definition Append (m : mockEventStore) (evs : list event.Event)
    : mockEventStore * option error :=
  match appendFn m with
  | Some f => (m, f evs)
  | None => (mkMockEventStore (events m ++ evs) (appendFn m), None)
  end.

Definition Load (m : mockEventStore) (aggregateID : string)
    : result (list event.Event) :=
  Ok (filter (fun e => event.AggregateID e = aggregateID) (events m)).

Definition LoadByType (m : mockEventStore) (eventType : event.Type_)
    : result (list event.Event) :=
  Ok (filter (fun e => event.Type' e = eventType) (events m)).

#[global] Instance mockEventStore_Store : event.Store mockEventStore :=
  {| event.Append := Append; event.Load := Load; event.LoadByType := LoadByType |}.

End auction_test.

(** ** Runs of one aggregate

    The commands of the state machine, and the cycle the coordinator
    runs for each of them: the command is applied and, when the aggregate
    accepts it, the pending buffer is drained into the log. *)

Inductive Command : Type :=
| place_bid (playerID : string) (amount playerDKP : Z) (now : Time)
| close
| cancel.

Definition apply (a : auction.Auction) (c : Command) : auction.Auction * option error :=
  match c with
  | place_bid p amount dkp now => auction.PlaceBid a p amount dkp now
  | close => ((auction.Close a).1.1, (auction.Close a).2)
  | cancel => auction.Cancel a
  end.

Record RunState : Type := mkRunState {
  agg : auction.Auction;
  log : list event.Event;
  outcomes : list (option error)
}.

Definition step (s : RunState) (c : Command) : RunState :=
  match apply (agg s) c with
  | (a, None) =>
      mkRunState (auction.PendingEvents a).1 (log s ++ (auction.PendingEvents a).2)
        (outcomes s ++ [None])
  | (a, Some e) => mkRunState a (log s) (outcomes s ++ [Some e])
  end.

(** The start command on a fresh aggregate. *)
Definition started (id itemName startedBy : string) (minBid duration : Z) : RunState :=
  let a := auction.New id itemName startedBy minBid duration in
  mkRunState (auction.PendingEvents a).1 (auction.PendingEvents a).2 [].

Definition run (s : RunState) (cs : list Command) : RunState := fold_left step cs s.

(** Two payloads that [json.Unmarshal] decodes alike.  The [data] column
    is [jsonb], which keeps the value of a document and not its text: the
    members of an object may come back in another order. *)
Definition decodes_alike (d d' : json.RawMessage) : Prop :=
  event.unmarshalAuctionStartedData d' = event.unmarshalAuctionStartedData d
  /\ event.unmarshalBidPlacedData d' = event.unmarshalBidPlacedData d.

(** What an event store keeps of an event it is given: the aggregate id,
    the type, the version and the payload; [ID] and [CreatedAt] are the
    store's own. *)
Definition persisted_as (e e' : event.Event) : Prop :=
  event.AggregateID e' = event.AggregateID e
  /\ event.Type' e' = event.Type' e
  /\ decodes_alike (event.Data e) (event.Data e')
  /\ event.Version e' = event.Version e.

(** A bid without its time. *)
Definition bid_key (b : auction.Bid) : string * Z := (auction.PlayerID b, auction.Amount b).

(** The amount an [auction.bid_placed] event carries. *)
Definition bidAmount (e : event.Event) : option Z :=
  if String.eqb (event.Type' e) event.AuctionBidPlaced then
    event.bp_Amount <$> event.unmarshalBidPlacedData (event.Data e)
  else None.

Definition is_terminal (e : event.Event) : Prop :=
  event.Type' e = event.AuctionClosed \/ event.Type' e = event.AuctionCancelled.

(** The type and the payload of the event a command emits when the
    aggregate [a] accepts it. *)
Definition emitted_type (c : Command) : event.Type_ :=
  match c with
  | place_bid _ _ _ _ => event.AuctionBidPlaced
  | close => event.AuctionClosed
  | cancel => event.AuctionCancelled
  end.

Definition emitted_data (a : auction.Auction) (c : Command) : json.RawMessage :=
  match c with
  | place_bid p amount _ _ => event.marshalBidPlacedData (event.mkBidPlacedData p amount)
  | close =>
      event.marshalAuctionClosedData
        match last (auction.Bids a) with
        | Some w => event.mkAuctionClosedData (auction.PlayerID w) (auction.Amount w)
        | None => event.mkAuctionClosedData "" 0
        end
  | cancel => json.Valid (json.Object [])
  end.

(** The effect of one accepted command, after the drain: [a'] is the
    aggregate afterwards and [e] the event that went to the log. *)
Definition effect (a : auction.Auction) (c : Command) (a' : auction.Auction)
    (e : event.Event) : Prop :=
  auction.Status a = "open"
  /\ auction.ID a' = auction.ID a
  /\ auction.ItemName a' = auction.ItemName a
  /\ auction.StartedBy a' = auction.StartedBy a
  /\ auction.MinBid a' = auction.MinBid a
  /\ auction.Version a' = int_wrap (auction.Version a + 1)
  /\ auction.events a' = []
  /\ e = event.mkEvent "" (auction.ID a) (emitted_type c) (emitted_data a c)
           (auction.Version a') zero_Time
  /\ match c with
     | place_bid p amount dkp now =>
         auction.Status a' = "open"
         /\ auction.Bids a' = auction.Bids a ++ [auction.mkBid p amount now]
         /\ auction.MinBid a <= amount <= dkp
         /\ (forall h, last (auction.Bids a) = Some h ->
                       auction.PlayerID h <> p /\ auction.Amount h < amount)
     | close => auction.Status a' = "closed" /\ auction.Bids a' = auction.Bids a
     | cancel => auction.Status a' = "canceled" /\ auction.Bids a' = auction.Bids a
     end.

(** What replay reproduces of the live aggregate [a] from the stored
    events: every field but the times of the bids, which are the
    [CreatedAt] of the stored bid events. *)
Definition reproduces (r a : auction.Auction) (stored : list event.Event) : Prop :=
  auction.ID r = auction.ID a
  /\ auction.ItemName r = auction.ItemName a
  /\ auction.StartedBy r = auction.StartedBy a
  /\ auction.MinBid r = auction.MinBid a
  /\ auction.Status r = auction.Status a
  /\ auction.Version r = auction.Version a
  /\ bid_key <$> auction.Bids r = bid_key <$> auction.Bids a
  /\ auction.Time' <$> auction.Bids r
     = event.CreatedAt
         <$> filter (fun e => event.Type' e = event.AuctionBidPlaced) stored.

(** ** Concrete scenarios *)

Module scenario.

(** Noon of 2025-06-15 UTC, the reading of the mock clock of the tests,
    in nanoseconds since the zero time. *)
Definition noon : Time := 63885585600 * 1000000000.

(** S1: start(item = Sword, min_bid = 10, duration = 5 min). *)
Definition sword : auction.Auction := auction.New "a1" "Sword" "admin" 10 300000000000.

(** S1: bid(A, 50) with balance 100. *)
Definition sword_A50 : auction.Auction := (auction.PlaceBid sword "A" 50 100 noon).1.

(** S3: bid(B, 75) with balance 200. *)
Definition sword_B75 : auction.Auction := (auction.PlaceBid sword_A50 "B" 75 200 noon).1.

(** An auction with a minimum bid of 100. *)
Definition shield : auction.Auction := auction.New "a2" "Shield" "admin" 100 300000000000.

Definition s1_s4 : list Command :=
  [place_bid "A" 50 100 noon; place_bid "A" 60 100 noon; place_bid "B" 75 200 noon;
   place_bid "A" 60 100 noon; close; place_bid "A" 90 100 noon; cancel].

Definition player1 : store.Player := store.mkPlayer "player-1" "discord-1" "Gandalf" 200 0 0.

Definition repo1 : dkp_test.mockPlayerRepo :=
  dkp_test.mkMockPlayerRepo {[ "discord-1" := player1 ]} None.

(** A database that answers, with an empty [events] table. *)
Definition db0 : postgres.EventStore := postgres.mkEventStore [] true noon.

(** The same database once the connection is lost. *)
Definition unplug (s : postgres.EventStore) : postgres.EventStore :=
  postgres.mkEventStore (postgres.rows s) false (postgres.now s).

Definition mgr0 : auction.Manager.t postgres.EventStore dkp_test.mockPlayerRepo :=
  auction.Manager.NewManager db0 repo1.

(** The coordinator after [StartAuction]. *)
Definition mgr1 : auction.Manager.t postgres.EventStore dkp_test.mockPlayerRepo :=
  (auction.Manager.StartAuction mgr0 "Shield" "admin" 10 300000000000 noon).1.

Definition shield_id : string := "auction-1749988800000000000".

(** The same coordinator, its database unreachable. *)
Definition mgr1_down : auction.Manager.t postgres.EventStore dkp_test.mockPlayerRepo :=
  auction.Manager.mk (auction.Manager.auctions mgr1)
    (unplug (auction.Manager.events mgr1)) (auction.Manager.players mgr1).

(** A DKP manager over a store that records every event it is given. *)
Definition dkp0 : dkp.Manager.t auction_test.mockEventStore dkp_test.mockPlayerRepo :=
  dkp.Manager.NewManager dkp_test.newMockPlayerRepo (auction_test.mkMockEventStore [] None).

(** A DKP manager over the database. *)
Definition dkp0_pg : dkp.Manager.t postgres.EventStore dkp_test.mockPlayerRepo :=
  dkp.Manager.NewManager dkp_test.newMockPlayerRepo db0.

(** A DKP manager with one registered player and an unreachable
    database. *)
Definition dkp_down : dkp.Manager.t postgres.EventStore dkp_test.mockPlayerRepo :=
  dkp.Manager.NewManager repo1 (unplug db0).

(** A DKP manager whose player repository fails. *)
Definition dkp_repo_fails : dkp.Manager.t postgres.EventStore dkp_test.mockPlayerRepo :=
  dkp.Manager.NewManager
    (dkp_test.mkMockPlayerRepo {[ "discord-1" := player1 ]} (Some (fmt_Errorf "db error")))
    db0.

(** Registration of a player followed by two awards, over the store
    that records everything and over the database. *)
Definition dkp_awarded_twice
  : dkp.Manager.t auction_test.mockEventStore dkp_test.mockPlayerRepo :=
  let m1 := (dkp.Manager.RegisterPlayer dkp0 "d1" "Legolas").1 in
  let m2 := (dkp.Manager.AwardDKP m1 "test-id-d1" 50 "raid attendance").1 in
  (dkp.Manager.AwardDKP m2 "test-id-d1" 100 "boss kill").1.

Definition dkp_awarded_twice_pg
  : dkp.Manager.t postgres.EventStore dkp_test.mockPlayerRepo :=
  let m1 := (dkp.Manager.RegisterPlayer dkp0_pg "d1" "Legolas").1 in
  let m2 := (dkp.Manager.AwardDKP m1 "test-id-d1" 50 "raid attendance").1 in
  (dkp.Manager.AwardDKP m2 "test-id-d1" 100 "boss kill").1.

(** The coordinator after a bid of 100 on its auction. *)
Definition mgr2 : auction.Manager.t postgres.EventStore dkp_test.mockPlayerRepo :=
  (auction.Manager.PlaceBid mgr1 shield_id "discord-1" 100 noon).1.

(** A second replica on the same database after a failover: its live
    table is empty. *)
Definition standby : auction.Manager.t postgres.EventStore dkp_test.mockPlayerRepo :=
  auction.Manager.NewManager (auction.Manager.events mgr2) repo1.

(** The live auction of [mgr1], that of [mgr2], and the row of the start
    event in their table. *)
Definition shield_live : auction.Auction :=
  auction.mkAuction shield_id "Shield" "admin" 10 "open" [] 1 [].

Definition shield_bid : auction.Auction :=
  auction.mkAuction shield_id "Shield" "admin" 10 "open"
    [auction.mkBid "player-1" 100 noon] 2 [].

Definition started_row : event.Event :=
  event.mkEvent "uuid-0" shield_id event.AuctionStarted
    (event.marshalAuctionStartedData
       (event.mkAuctionStartedData "Shield" "admin" 10 300000000000))
    1 noon.

End scenario.

(** ** Further notions for the properties of the aggregate *)

(** The same aggregate with another pending buffer. *)
Definition withEvents (a : auction.Auction) (evs : list event.Event) : auction.Auction :=
  auction.mkAuction (auction.ID a) (auction.ItemName a) (auction.StartedBy a)
    (auction.MinBid a) (auction.Status a) (auction.Bids a) (auction.Version a) evs.

(** Commands applied one after the other without a drain in between, as
    the tests of the aggregate do. *)
Definition applyAll (a : auction.Auction) (cs : list Command) : auction.Auction :=
  fold_left (fun a c => (apply a c).1) cs a.

(** The bidder and the amount an [auction.bid_placed] event carries. *)
Definition bidOf (e : event.Event) : option (string * Z) :=
  if String.eqb (event.Type' e) event.AuctionBidPlaced then
    (fun d => (event.bp_PlayerID d, event.bp_Amount d))
      <$> event.unmarshalBidPlacedData (event.Data e)
  else None.

(** Whether [Replay] can decode the payload of an event: it decodes the
    payloads of start and bid events and no other. *)
Definition decodable (e : event.Event) : bool :=
  if String.eqb (event.Type' e) event.AuctionStarted then
    bool_decide (is_Some (event.unmarshalAuctionStartedData (event.Data e)))
  else if String.eqb (event.Type' e) event.AuctionBidPlaced then
    bool_decide (is_Some (event.unmarshalBidPlacedData (event.Data e)))
  else true.

(** The start event that [New] records. *)
Definition startedEvent (id itemName startedBy : string) (minBid duration : Z)
    : event.Event :=
  event.mkEvent "" id event.AuctionStarted
    (event.marshalAuctionStartedData
       (event.mkAuctionStartedData itemName startedBy minBid duration))
    1 zero_Time.

(** ** Further notions for the properties of the coordinator *)

(** The id [StartAuction] derives from a reading of the clock. *)
Definition auctionID (now : Time) : string :=
  "auction-" +:+ pretty (auction.Manager.UnixNano now).

(** What recovery makes of an aggregate id: the replayed auction when the
    replay succeeds and the auction is open, nothing otherwise. *)
Definition recoverable {S P : Type} `{!event.Store S} `{!store.PlayerRepository P}
    (m : auction.Manager.t S P) (id : string) : option auction.Auction :=
  match auction.Manager.ReplayAuction m id with
  | Ok a => if String.eqb (auction.Status a) "open" then Some a else None
  | Err _ => None
  end.

(** ** Further notions for the properties of the event store *)

(** The key of the unique index of the [events] table. *)
Definition key (e : event.Event) : string * Z := (event.AggregateID e, event.Version e).

(** What the columns of the table take, whatever the table holds: a
    payload that is JSON and a version within 32 bits. *)
Definition storable (e : event.Event) : Prop :=
  event.Data e <> json.Invalid
  /\ postgres.int32_min <= event.Version e <= postgres.int32_max.

(** The row the table keeps of the [i]-th event of a batch, for a table
    that held [n] rows before the batch. *)
Definition stamped (n : nat) (now : Time) (i : nat) (e : event.Event) : event.Event :=
  event.mkEvent ("uuid-" +:+ pretty (n + i)%nat) (event.AggregateID e) (event.Type' e)
    (event.Data e) (event.Version e) now.

(** ** Further notions for the coordinator on the database *)

(** The table mirrors the live auction [a]: the pending buffer of [a] is
    drained, and the events that [Load] returns for its aggregate carry
    the versions 1 to [Version a] and replay to an auction that
    reproduces [a]. *)
Definition mirrored (db : postgres.EventStore) (a : auction.Auction) : Prop :=
  auction.events a = []
  /\ exists stored r,
       postgres.Load db (auction.ID a) = Ok stored
       /\ event.Version <$> stored = seqZ 1 (auction.Version a)
       /\ auction.Replay stored = Ok r
       /\ reproduces r a stored.

(** The coordinator is in step with its database: every auction of the
    live table is filed under its own id, is open, and is mirrored by the
    table. *)
Definition in_step {P : Type} (m : auction.Manager.t postgres.EventStore P) : Prop :=
  forall id a, auction.Manager.auctions m !! id = Some a ->
    auction.ID a = id /\ auction.Status a = "open"
    /\ mirrored (auction.Manager.events m) a.

(** ** Further notions for the properties of replay *)

(** Whether every integer that a payload gives at its top level fits 64
    bits, as every integer literal that parses to [json.Number] does. *)
Definition fits_int64 (data : json.RawMessage) : Prop :=
  match data with
  | json.Valid (json.Object members) =>
      Forall (fun kv => forall n, kv.2 = json.Number n -> int_min <= n <= int_max)
        members
  | _ => True
  end.

(** * Properties *)

(** ** Arithmetic and strings *)

Lemma int_wrap_id (z : Z) : int_min <= z <= int_max -> int_wrap z = z.
Proof.
  unfold int_wrap, int_min, int_max. intros Hz.
  rewrite Z.mod_small; lia.
Qed.

Lemma eqb_open_true (s : string) : s = "open" -> negb (String.eqb s "open") = false.
Proof. intros ->. reflexivity. Qed.

Lemma eqb_open_false (s : string) : s <> "open" -> negb (String.eqb s "open") = true.
Proof. intros Hs. apply negb_true_iff, String.eqb_neq, Hs. Qed.

(** ** The repository's tests, run on the embedding *)

(** The table of [TestPlaceBid]. *)
Example TestPlaceBid :
  (auction.PlaceBid (auction.New "a1" "Sword of Truth" "admin" 10 300000000000)
     "p1" 50 100 scenario.noon).2 = None
  /\ (auction.PlaceBid (auction.New "a2" "Shield" "admin" 100 300000000000)
        "p1" 50 200 scenario.noon).2 = Some auction.ErrBidTooLow
  /\ (auction.PlaceBid (auction.New "a3" "Helm" "admin" 10 300000000000)
        "p1" 150 100 scenario.noon).2 = Some auction.ErrInsufficientDKP
  /\ (auction.PlaceBid
        (auction.PlaceBid (auction.New "a4" "Boots" "admin" 10 300000000000)
           "p1" 50 100 scenario.noon).1
        "p1" 60 100 scenario.noon).2 = Some auction.ErrSelfOutbid
  /\ (auction.PlaceBid
        (auction.Close (auction.New "a5" "Ring" "admin" 10 300000000000)).1.1
        "p1" 50 100 scenario.noon).2 = Some auction.ErrAuctionClosed
  /\ (auction.PlaceBid
        (auction.PlaceBid (auction.New "a6" "Cloak" "admin" 10 300000000000)
           "p1" 50 100 scenario.noon).1
        "p2" 30 100 scenario.noon).2 = Some auction.ErrBidTooLow.
Proof. repeat split. Qed.

(** [TestAuction_Cancel] and [TestAuction_Cancel_AlreadyClosed]. *)
Example TestAuction_Cancel :
  let a := (auction.Cancel (auction.New "cancel-test" "Ring" "admin" 10 300000000000)).1 in
  auction.Status a = "canceled"
  /\ (auction.Cancel a).2 = Some auction.ErrAuctionClosed
  /\ (auction.Cancel
        (auction.Close (auction.New "cancel-closed-test" "Gem" "admin" 10 300000000000)).1.1).2
     = Some auction.ErrAuctionClosed.
Proof. repeat split. Qed.

(** [TestAuction_PendingEvents]: two events are pending after the start
    and one bid, none after the drain. *)
Example TestAuction_PendingEvents :
  let a := (auction.PlaceBid (auction.New "events-test" "Item" "admin" 10 300000000000)
              "p1" 50 100 scenario.noon).1 in
  length (auction.PendingEvents a).2 = 2%nat
  /\ (auction.PendingEvents (auction.PendingEvents a).1).2 = [].
Proof. split; reflexivity. Qed.

(** [TestManager_ReplayAuction], over the database: the replayed auction
    has the item name and the one bid. *)
Example TestManager_ReplayAuction :
  let m := (auction.Manager.PlaceBid scenario.mgr1 scenario.shield_id "discord-1" 100
              scenario.noon).1 in
  exists a, auction.Manager.ReplayAuction m scenario.shield_id = Ok a
            /\ auction.ItemName a = "Shield"
            /\ length (auction.Bids a) = 1%nat.
Proof. vm_compute. eexists. repeat split. Qed.

(** [TestManager_StartAuction_PersistError]. *)
Example TestManager_StartAuction_PersistError :
  exists e,
    (auction.Manager.StartAuction
       (auction.Manager.NewManager
          (auction_test.mkMockEventStore []
             (Some (fun _ => Some (fmt_Errorf "db write error"))))
          dkp_test.newMockPlayerRepo)
       "Sword" "admin" 10 300000000000 scenario.noon).2 = Err e.
Proof. eexists. reflexivity. Qed.

(** [TestEventStore_UniqueAggregateVersion]: the second append of the
    same aggregate id and version fails. *)
Example TestEventStore_UniqueAggregateVersion :
  let e := event.mkEvent "" "dup-test" event.DKPAwarded (json.Valid (json.Object []))
             1 zero_Time in
  (postgres.Append scenario.db0 [e]).2 = None
  /\ (postgres.Append (postgres.Append scenario.db0 [e]).1 [e]).2
     = Some (fmt_Errorf_w "inserting event (aggregate=dup-test, version=1)"
               postgres.uniqueViolation).
Proof. split; reflexivity. Qed.

(** [TestManager_DeductDKP]: 100 awarded, 30 deducted, 70 left. *)
Example TestManager_DeductDKP :
  let m1 := (dkp.Manager.RegisterPlayer scenario.dkp0 "d1" "Aragorn").1 in
  let m2 := (dkp.Manager.AwardDKP m1 "test-id-d1" 100 "seed").1 in
  let r := dkp.Manager.DeductDKP m2 "test-id-d1" 30 "item purchased" in
  r.2 = None
  /\ (store.DKP <$> dkp_test.players (dkp.Manager.players r.1) !! "d1") = Some 70.
Proof. vm_compute. split; reflexivity. Qed.

(** ** The aggregate, command by command *)

Section Aggregate.
Import auction.

Lemma recordEvent_fields (a : Auction) (t : event.Type_) (data : json.RawMessage) :
  ID (recordEvent a t data) = ID a
  /\ ItemName (recordEvent a t data) = ItemName a
  /\ StartedBy (recordEvent a t data) = StartedBy a
  /\ MinBid (recordEvent a t data) = MinBid a
  /\ Status (recordEvent a t data) = Status a
  /\ Bids (recordEvent a t data) = Bids a
  /\ Version (recordEvent a t data) = int_wrap (Version a + 1)
  /\ events (recordEvent a t data)
     = events a ++ [event.mkEvent "" (ID a) t data (int_wrap (Version a + 1)) zero_Time].
Proof. repeat split. Qed.

(** A rejected command of any kind leaves the aggregate as it was. *)
Lemma PlaceBid_rejected (a a' : Auction) (p : string) (amount dkp : Z) (now : Time)
    (e : error) :
  PlaceBid a p amount dkp now = (a', Some e) -> a' = a.
Proof.
  unfold PlaceBid. intros H.
  repeat match type of H with
         | (if ?c then _ else _) = _ => destruct c
         end; congruence.
Qed.

Lemma Close_rejected (a a' : Auction) (w : option Bid) (e : error) :
  Close a = (a', w, Some e) -> a' = a.
Proof.
  unfold Close. destruct (negb _); [congruence|].
  destruct (highestBid _); congruence.
Qed.

Lemma Cancel_rejected (a a' : Auction) (e : error) :
  Cancel a = (a', Some e) -> a' = a.
Proof. unfold Cancel. destruct (negb _); congruence. Qed.

(** An accepted bid, spelled out. *)
Lemma PlaceBid_accepted (a a' : Auction) (p : string) (amount dkp : Z) (now : Time) :
  PlaceBid a p amount dkp now = (a', None) ->
  Status a = "open"
  /\ MinBid a <= amount <= dkp
  /\ (forall h, last (Bids a) = Some h -> PlayerID h <> p /\ Amount h < amount)
  /\ a' = recordEvent
            (mkAuction (ID a) (ItemName a) (StartedBy a) (MinBid a) (Status a)
               (Bids a ++ [mkBid p amount now]) (Version a) (events a))
            event.AuctionBidPlaced
            (event.marshalBidPlacedData (event.mkBidPlacedData p amount)).
Proof.
  unfold PlaceBid, highestBid. intros H.
  destruct (negb (String.eqb (Status a) "open")) eqn:Hs; [discriminate|].
  apply negb_false_iff, String.eqb_eq in Hs.
  destruct (amount <? MinBid a) eqn:Hmin; [discriminate|].
  destruct (amount >? dkp) eqn:Hdkp; [discriminate|].
  apply Z.ltb_ge in Hmin. rewrite Z.gtb_ltb in Hdkp. apply Z.ltb_ge in Hdkp.
  destruct (last (Bids a)) as [h|] eqn:Hlast.
  - destruct (String.eqb (PlayerID h) p) eqn:Hp; [discriminate|].
    destruct (amount <=? Amount h) eqn:Ha; [discriminate|].
    apply String.eqb_neq in Hp. apply Z.leb_gt in Ha.
    inversion H; subst. split; [exact Hs|]. split; [lia|]. split; [|reflexivity].
    intros h' [= <-]. split; [exact Hp | lia].
  - inversion H; subst. split; [exact Hs|]. split; [lia|]. split; [|reflexivity].
    intros h' [=].
Qed.

End Aggregate.

(** C1.  For an open auction, [PlaceBid] with bidder [p], amount [amount]
    and balance [dkp] succeeds if and only if [amount >= MinBid],
    [amount <= dkp] and either there is no bid or the amount is strictly
    greater than the last bid's and [p] is not the last bidder; on
    success exactly the bid [(p, amount)] is appended and the version
    grows by one; on failure bids and version are unchanged.  The version
    is an [int] below its maximum. *)
Theorem C1_place_bid_guard (a : auction.Auction) (p : string) (amount dkp : Z)
    (now : Time) :
  auction.Status a = "open" ->
  int_min <= auction.Version a < int_max ->
  let r := auction.PlaceBid a p amount dkp now in
  (r.2 = None <->
     auction.MinBid a <= amount /\ amount <= dkp
     /\ (auction.Bids a = []
         \/ exists h, last (auction.Bids a) = Some h
                      /\ auction.Amount h < amount /\ p <> auction.PlayerID h))
  /\ (r.2 = None ->
        auction.Bids r.1 = auction.Bids a ++ [auction.mkBid p amount now]
        /\ auction.Version r.1 = auction.Version a + 1)
  /\ (r.2 <> None ->
        auction.Bids r.1 = auction.Bids a /\ auction.Version r.1 = auction.Version a).
Proof.
  intros Hopen Hv r. subst r.
  destruct (auction.PlaceBid a p amount dkp now) as [a' [e|]] eqn:HP; simpl.
  - apply PlaceBid_rejected in HP as Ha'. subst a'.
    split; [|split; [discriminate | auto]].
    split; [discriminate|]. intros (Hmin & Hdkp & Hlast). exfalso.
    revert HP. unfold auction.PlaceBid, auction.highestBid.
    rewrite (eqb_open_true _ Hopen).
    destruct (Z.ltb_spec amount (auction.MinBid a)); [lia|].
    rewrite Z.gtb_ltb. destruct (Z.ltb_spec dkp amount); [lia|].
    destruct Hlast as [Hnil | (h & Hh & Hamt & Hp)].
    + rewrite Hnil. simpl. discriminate.
    + rewrite Hh.
      destruct (String.eqb_spec (auction.PlayerID h) p); [congruence|].
      destruct (Z.leb_spec amount (auction.Amount h)); [lia|]. discriminate.
  - apply PlaceBid_accepted in HP as (_ & Hrange & Hlast & ->).
    split; [|split].
    + split; [|reflexivity]. intros _. split; [lia|]. split; [lia|].
      destruct (last (auction.Bids a)) as [h|] eqn:Hl.
      * right. exists h. destruct (Hlast h eq_refl). split; [reflexivity|]. split; [lia|congruence].
      * left. apply last_None in Hl. exact Hl.
    + intros _. simpl. split; [reflexivity|]. apply int_wrap_id. unfold int_min, int_max in *. lia.
    + intros H. congruence.
Qed.

(** C1, at the first bid of scenario S1. *)
Lemma C1_place_bid_guard_witness :
  (auction.PlaceBid scenario.sword "A" 50 100 scenario.noon).2 = None
  /\ auction.Bids (auction.PlaceBid scenario.sword "A" 50 100 scenario.noon).1
     = [auction.mkBid "A" 50 scenario.noon]
  /\ auction.Version (auction.PlaceBid scenario.sword "A" 50 100 scenario.noon).1 = 2.
Proof.
  pose proof (C1_place_bid_guard scenario.sword "A" 50 100 scenario.noon
                eq_refl ltac:(vm_compute; split; congruence)) as (Hiff & Hok & _).
  assert (Hnone : (auction.PlaceBid scenario.sword "A" 50 100 scenario.noon).2 = None).
  { apply Hiff. split; [vm_compute; congruence|]. split; [vm_compute; congruence|].
    left. reflexivity. }
  destruct (Hok Hnone) as [Hb Hv].
  split; [exact Hnone|]. split; [exact Hb | exact Hv].
Defined.

(** ** Runs *)

Section Runs.
Import auction.

Lemma terminal_rejects (a : Auction) (c : Command) :
  Status a <> "open" -> apply a c = (a, Some ErrAuctionClosed).
Proof.
  intros Hs. destruct c; unfold apply, PlaceBid, Close, Cancel;
    rewrite (eqb_open_false _ Hs); reflexivity.
Qed.

(** One turn of the cycle either rejects the command and changes
    nothing, or accepts it and sends exactly one event to the log. *)
Lemma step_cases (s : RunState) (c : Command) :
  events (agg s) = [] ->
  (exists err, step s c = mkRunState (agg s) (log s) (outcomes s ++ [Some err]))
  \/ (exists a' e, step s c = mkRunState a' (log s ++ [e]) (outcomes s ++ [None])
                   /\ effect (agg s) c a' e).
Proof.
  intros Hev. unfold step. destruct c as [p amount dkp now| |]; unfold apply.
  - destruct (PlaceBid (agg s) p amount dkp now) as [a' [err|]] eqn:HP.
    + apply PlaceBid_rejected in HP. subst a'. left. eauto.
    + apply PlaceBid_accepted in HP as (Hs & Hrange & Hlast & ->).
      right. eexists _, _. split.
      * unfold PendingEvents, recordEvent. simpl. rewrite Hev. reflexivity.
      * unfold effect. simpl. rewrite Hs. repeat split; auto; try lia;
          apply (Hlast h); assumption.
  - unfold Close, highestBid.
    destruct (String.eqb_spec (Status (agg s)) "open") as [Hs|Hs]; simpl.
    + right. destruct (last (Bids (agg s))) as [w|] eqn:Hl; simpl;
        rewrite Hev; eexists _, _; (split; [reflexivity|]);
        unfold effect; simpl; rewrite Hl; repeat split; auto.
    + left. eauto.
  - unfold Cancel.
    destruct (String.eqb_spec (Status (agg s)) "open") as [Hs|Hs]; simpl.
    + right. rewrite Hev. eexists _, _. split; [reflexivity|].
      unfold effect. simpl. repeat split; auto.
    + left. eauto.
Qed.

Lemma run_snoc (s : RunState) (cs : list Command) (c : Command) :
  run s (cs ++ [c]) = step (run s cs) c.
Proof. unfold run. rewrite fold_left_app. reflexivity. Qed.

Lemma run_app (s : RunState) (cs1 cs2 : list Command) :
  run s (cs1 ++ cs2) = run (run s cs1) cs2.
Proof. unfold run. apply fold_left_app. Qed.

(** Induction over the states a run goes through. *)
Lemma run_invariant (P : RunState -> Prop) (s0 : RunState) :
  P s0 -> (forall s c, P s -> P (step s c)) -> forall cs, P (run s0 cs).
Proof.
  intros H0 Hstep cs. induction cs as [|c cs IH] using rev_ind.
  - exact H0.
  - rewrite run_snoc. apply Hstep, IH.
Qed.

Lemma started_drained (id itemName startedBy : string) (minBid duration : Z) :
  events (agg (started id itemName startedBy minBid duration)) = [].
Proof. reflexivity. Qed.

Lemma step_drained (s : RunState) (c : Command) :
  events (agg s) = [] -> events (agg (step s c)) = [].
Proof.
  intros Hev. destruct (step_cases s c Hev) as [[err ->] | (a' & e & -> & Heff)].
  - exact Hev.
  - simpl. apply Heff.
Qed.

Lemma run_drained (id itemName startedBy : string) (minBid duration : Z)
    (cs : list Command) :
  events (agg (run (started id itemName startedBy minBid duration) cs)) = [].
Proof.
  apply (run_invariant (fun s => events (agg s) = [])).
  - apply started_drained.
  - intros s c. apply step_drained.
Qed.

(** Once the log holds a terminal event, the aggregate is not open. *)
Lemma terminal_logged_not_open (id itemName startedBy : string)
    (minBid duration : Z) (cs : list Command) :
  let s := run (started id itemName startedBy minBid duration) cs in
  Exists is_terminal (log s) -> Status (agg s) <> "open".
Proof.
  simpl.
  apply (run_invariant
           (fun s => events (agg s) = []
                     /\ (Exists is_terminal (log s) -> Status (agg s) <> "open"))).
  - split; [reflexivity|]. simpl. intros H.
    apply Exists_cons in H as [[H|H]|H]; [discriminate H|discriminate H|].
    inversion H.
  - intros s c [Hev IH]. split; [apply step_drained, Hev|].
    destruct (step_cases s c Hev) as [[err ->] | (a' & e & -> & Heff)]; simpl.
    + exact IH.
    + destruct Heff as (Hopen & _ & _ & _ & _ & _ & _ & -> & Hc).
      intros H. apply Exists_app in H as [H|H]; [apply IH in H; contradiction|].
      apply Exists_cons in H as [[H|H]|H]; [| |inversion H];
        destruct c; simpl in H; try discriminate H;
        destruct Hc as [-> _]; discriminate.
Qed.

End Runs.

(** C5, as the code has it.  A bid below the minimum and a bid that does
    not exceed the highest bid are reported by the same error,
    [ErrBidTooLow]: in scenario S3 the bid of 30 by another player, above
    the minimum of 10 and within the balance but not above the highest
    bid of 50, fails with the very error of a bid of 50 on an auction
    whose minimum is 100. *)
Lemma C5_too_low_not_distinct :
  (auction.PlaceBid scenario.sword_A50 "p2" 30 100 scenario.noon).2
  = Some auction.ErrBidTooLow
  /\ (auction.PlaceBid scenario.shield "p1" 50 200 scenario.noon).2
     = Some auction.ErrBidTooLow.
Proof. split; reflexivity. Qed.

(** C5, amended.  [PlaceBid] reports its failures through four distinct
    errors, checked in this order: [ErrAuctionClosed] when the auction is
    not open; [ErrBidTooLow] when the amount is below the minimum;
    [ErrInsufficientDKP] when it is above the balance; [ErrSelfOutbid]
    when the bidder holds the highest bid; and [ErrBidTooLow] again when
    the amount does not exceed the highest bid. *)
Theorem C5_bidding_errors (a : auction.Auction) (p : string) (amount dkp : Z)
    (now : Time) :
  let err := (auction.PlaceBid a p amount dkp now).2 in
  (auction.Status a <> "open" -> err = Some auction.ErrAuctionClosed)
  /\ (auction.Status a = "open" -> amount < auction.MinBid a ->
      err = Some auction.ErrBidTooLow)
  /\ (auction.Status a = "open" -> auction.MinBid a <= amount -> dkp < amount ->
      err = Some auction.ErrInsufficientDKP)
  /\ (forall h, auction.Status a = "open" -> auction.MinBid a <= amount <= dkp ->
                last (auction.Bids a) = Some h -> auction.PlayerID h = p ->
                err = Some auction.ErrSelfOutbid)
  /\ (forall h, auction.Status a = "open" -> auction.MinBid a <= amount <= dkp ->
                last (auction.Bids a) = Some h -> auction.PlayerID h <> p ->
                amount <= auction.Amount h ->
                err = Some auction.ErrBidTooLow)
  /\ NoDup [auction.ErrAuctionClosed; auction.ErrBidTooLow; auction.ErrSelfOutbid;
            auction.ErrInsufficientDKP].
Proof.
  simpl. unfold auction.PlaceBid, auction.highestBid.
  split; [|split; [|split; [|split; [|split]]]].
  - intros Hs. rewrite (eqb_open_false _ Hs). reflexivity.
  - intros Hs Hlt. rewrite (eqb_open_true _ Hs).
    destruct (Z.ltb_spec amount (auction.MinBid a)); [reflexivity|lia].
  - intros Hs Hmin Hgt. rewrite (eqb_open_true _ Hs).
    destruct (Z.ltb_spec amount (auction.MinBid a)); [lia|].
    rewrite Z.gtb_ltb. destruct (Z.ltb_spec dkp amount); [reflexivity|lia].
  - intros h Hs Hrange Hl Hp. rewrite (eqb_open_true _ Hs).
    destruct (Z.ltb_spec amount (auction.MinBid a)); [lia|].
    rewrite Z.gtb_ltb. destruct (Z.ltb_spec dkp amount); [lia|].
    rewrite Hl, Hp, String.eqb_refl. reflexivity.
  - intros h Hs Hrange Hl Hp Hle. rewrite (eqb_open_true _ Hs).
    destruct (Z.ltb_spec amount (auction.MinBid a)); [lia|].
    rewrite Z.gtb_ltb. destruct (Z.ltb_spec dkp amount); [lia|].
    rewrite Hl. destruct (String.eqb_spec (auction.PlayerID h) p); [contradiction|].
    destruct (Z.leb_spec amount (auction.Amount h)); [reflexivity|lia].
  - rewrite !NoDup_cons, !not_elem_of_cons.
    repeat split; try discriminate; try apply not_elem_of_nil. apply NoDup_nil_2.
Qed.

(** C5 amended, at scenario S2: the holder of the highest bid bids again. *)
Lemma C5_bidding_errors_witness :
  (auction.PlaceBid scenario.sword_A50 "A" 60 100 scenario.noon).2
  = Some auction.ErrSelfOutbid.
Proof.
  pose proof (C5_bidding_errors scenario.sword_A50 "A" 60 100 scenario.noon)
    as (_ & _ & _ & Hself & _).
  apply (Hself (auction.mkBid "A" 50 scenario.noon)).
  - reflexivity.
  - vm_compute. split; congruence.
  - reflexivity.
  - reflexivity.
Defined.

(** C7.  Closing an open auction sets its status to closed and returns
    the last bid as the winner, or no winner when there is no bid; either
    way exactly one [auction.closed] event is emitted, and its payload is
    the JSON object with the members [winner_id] and [amount]: the
    winner's player id and amount when there is a winner, the empty
    string and 0 when there is none. *)
Theorem C7_close_winner (a : auction.Auction) :
  auction.Status a = "open" ->
  let r := auction.Close a in
  r.2 = None
  /\ auction.Status r.1.1 = "closed"
  /\ r.1.2 = last (auction.Bids a)
  /\ auction.Bids r.1.1 = auction.Bids a
  /\ exists e,
       auction.events r.1.1 = auction.events a ++ [e]
       /\ event.Type' e = event.AuctionClosed
       /\ event.AggregateID e = auction.ID a
       /\ event.Version e = auction.Version r.1.1
       /\ event.Data e
          = json.Valid (json.Object
              match last (auction.Bids a) with
              | Some w => [("winner_id", json.String (auction.PlayerID w));
                           ("amount", json.Number (auction.Amount w))]
              | None => [("winner_id", json.String ""); ("amount", json.Number 0)]
              end).
Proof.
  intros Hs. simpl. unfold auction.Close, auction.highestBid.
  rewrite (eqb_open_true _ Hs). simpl.
  destruct (last (auction.Bids a)) as [w|]; simpl;
    repeat split; eexists; repeat split.
Qed.

(** C7, at scenario S4: closing after the bids of A (50) and B (75)
    returns the bid of B and emits the event that names B and 75. *)
Lemma C7_close_winner_witness :
  (auction.Close scenario.sword_B75).1.2 = Some (auction.mkBid "B" 75 scenario.noon)
  /\ auction.Status (auction.Close scenario.sword_B75).1.1 = "closed"
  /\ exists e,
       last (auction.events (auction.Close scenario.sword_B75).1.1) = Some e
       /\ event.Data e
          = json.Valid (json.Object
              [("winner_id", json.String "B"); ("amount", json.Number 75)]).
Proof.
  pose proof (C7_close_winner scenario.sword_B75 eq_refl)
    as (_ & Hs & Hw & _ & e & Hev & _ & _ & _ & Hdata).
  split; [exact Hw|]. split; [exact Hs|].
  exists e. split; [rewrite Hev; apply last_snoc | exact Hdata].
Defined.

(** C8.  Once the log of an aggregate holds a terminal event
    ([auction.closed] or [auction.cancelled]), every further command
    ([place_bid], [close], [cancel]) fails with [ErrAuctionClosed], the
    aggregate stays as it is and no event is added to the log. *)
Theorem C8_terminal_closure (id itemName startedBy : string) (minBid duration : Z)
    (cs cs' : list Command) :
  let s := run (started id itemName startedBy minBid duration) cs in
  Exists is_terminal (log s) ->
  run s cs'
  = mkRunState (agg s) (log s)
      (outcomes s ++ replicate (length cs') (Some auction.ErrAuctionClosed)).
Proof.
  intros s Hterm.
  pose proof (terminal_logged_not_open id itemName startedBy minBid duration cs Hterm)
    as Hclosed.
  fold s in Hclosed. clearbody s.
  induction cs' as [|c cs' IH] using rev_ind.
  - simpl. rewrite app_nil_r. destruct s; reflexivity.
  - rewrite run_snoc, IH. unfold step. simpl.
    rewrite (terminal_rejects _ c Hclosed).
    rewrite length_app, Nat.add_comm. simpl.
    rewrite <- app_assoc. do 2 f_equal.
    change (Some auction.ErrAuctionClosed
            :: replicate (length cs') (Some auction.ErrAuctionClosed))
      with (replicate (S (length cs')) (Some auction.ErrAuctionClosed)).
    rewrite replicate_S_end. reflexivity.
Qed.

(** C8, at scenario S4: after the close, the bid of 90 and the cancel are
    both refused and the log keeps its four events. *)
Lemma C8_terminal_closure_witness :
  let s := run (started "a1" "Sword" "admin" 10 300000000000)
             [place_bid "A" 50 100 scenario.noon; place_bid "B" 75 200 scenario.noon; close] in
  run s [place_bid "A" 90 100 scenario.noon; cancel]
  = mkRunState (agg s) (log s)
      (outcomes s ++ [Some auction.ErrAuctionClosed; Some auction.ErrAuctionClosed]).
Proof.
  apply (C8_terminal_closure "a1" "Sword" "admin" 10 300000000000
           [place_bid "A" 50 100 scenario.noon; place_bid "B" 75 200 scenario.noon; close]
           [place_bid "A" 90 100 scenario.noon; cancel]).
  vm_compute. do 3 apply Exists_cons_tl. apply Exists_cons_hd. left. reflexivity.
Defined.

(** ** Replay *)

Section Replay.
Import auction.

Lemma unmarshal_marshal_AuctionStartedData (d : event.AuctionStartedData) :
  event.unmarshalAuctionStartedData (event.marshalAuctionStartedData d) = Some d.
Proof. destruct d. reflexivity. Qed.

Lemma unmarshal_marshal_BidPlacedData (d : event.BidPlacedData) :
  event.unmarshalBidPlacedData (event.marshalBidPlacedData d) = Some d.
Proof. destruct d. reflexivity. Qed.

Lemma replayLoop_app (a : Auction) (l1 l2 : list event.Event) :
  replayLoop a (l1 ++ l2)
  = match replayLoop a l1 with
    | Ok a' => replayLoop a' l2
    | Err e => Err e
    end.
Proof.
  revert a. induction l1 as [|e l1 IH]; intros a; simpl; [reflexivity|].
  destruct (replayEvent a e); [apply IH | reflexivity].
Qed.

Lemma Replay_nonempty (evs : list event.Event) :
  evs <> [] -> Replay evs = replayLoop zero_Auction evs.
Proof. destruct evs; [contradiction | reflexivity]. Qed.

Lemma replay_started (id itemName startedBy : string) (minBid duration : Z)
    (stored : list event.Event) :
  Forall2 persisted_as (log (started id itemName startedBy minBid duration)) stored ->
  exists r, replayLoop zero_Auction stored = Ok r
            /\ reproduces r (agg (started id itemName startedBy minBid duration)) stored.
Proof.
  simpl. intros H.
  apply Forall2_cons_inv_l in H as (e' & rest & (Hid & Hty & [Hdata _] & Hv) & Hrest & ->).
  apply Forall2_nil_inv_l in Hrest as ->.
  simpl in *. unfold replayEvent. rewrite Hty. simpl. rewrite Hdata. simpl.
  eexists. split; [reflexivity|].
  unfold reproduces. simpl. rewrite filter_cons_False, filter_nil by (rewrite Hty; discriminate).
  repeat split; assumption.
Qed.

(** Replaying the stored copy of the event of an accepted command does
    to the replayed aggregate what the command did to the live one. *)
Lemma replay_effect (a a' r : Auction) (c : Command) (e e' : event.Event)
    (stored : list event.Event) :
  effect a c a' e -> persisted_as e e' -> reproduces r a stored ->
  exists r', replayEvent r e' = Ok r' /\ reproduces r' a' (stored ++ [e']).
Proof.
  intros (Hopen & Hid & Hitem & Hby & Hmin & Hver & _ & -> & Hc)
         (Haid & Hty & [_ Hdata] & Hv)
         (Rid & Ritem & Rby & Rmin & Rst & Rver & Rbids & Rtimes).
  simpl in *. unfold replayEvent. rewrite Hty.
  destruct c as [p amount dkp now| |]; simpl in *.
  - destruct Hc as (Hst & Hbids & _). rewrite Hdata. simpl.
    eexists. split; [reflexivity|].
    unfold reproduces. simpl.
    rewrite filter_app, filter_cons_True, filter_nil by exact Hty.
    rewrite Hbids, !fmap_app, Rbids, Rtimes. simpl.
    repeat split; congruence.
  - destruct Hc as (Hst & Hbids).
    eexists. split; [reflexivity|].
    unfold reproduces. simpl.
    rewrite filter_app, filter_cons_False, filter_nil, app_nil_r
      by (rewrite Hty; discriminate).
    repeat split; congruence.
  - destruct Hc as (Hst & Hbids).
    eexists. split; [reflexivity|].
    unfold reproduces. simpl.
    rewrite filter_app, filter_cons_False, filter_nil, app_nil_r
      by (rewrite Hty; discriminate).
    repeat split; congruence.
Qed.

Lemma replay_run (id itemName startedBy : string) (minBid duration : Z)
    (cs : list Command) :
  let s := run (started id itemName startedBy minBid duration) cs in
  events (agg s) = []
  /\ log s <> []
  /\ forall stored, Forall2 persisted_as (log s) stored ->
       exists r, replayLoop zero_Auction stored = Ok r /\ reproduces r (agg s) stored.
Proof.
  simpl. apply (run_invariant (fun s =>
    events (agg s) = [] /\ log s <> []
    /\ forall stored, Forall2 persisted_as (log s) stored ->
         exists r, replayLoop zero_Auction stored = Ok r /\ reproduces r (agg s) stored)).
  - split; [reflexivity|]. split; [discriminate|]. apply replay_started.
  - intros s c (Hev & Hne & IH).
    destruct (step_cases s c Hev) as [[err ->] | (a' & e & -> & Heff)]; simpl.
    + auto.
    + split; [apply Heff|]. split; [intros H; apply app_eq_nil in H as [_ [=]]|].
      intros stored H.
      apply Forall2_app_inv_l in H as (st1 & st2 & H1 & H2 & ->).
      apply Forall2_cons_inv_l in H2 as (e' & rest & He & Hrest & ->).
      apply Forall2_nil_inv_l in Hrest as ->.
      destruct (IH st1 H1) as (r & Hr & Hsim).
      destruct (replay_effect _ _ _ _ _ _ _ Heff He Hsim) as (r' & Hr' & Hsim').
      exists r'. split; [|exact Hsim'].
      rewrite replayLoop_app, Hr. simpl. rewrite Hr'. reflexivity.
Qed.

Lemma persisted_versions (l stored : list event.Event) :
  Forall2 persisted_as l stored -> event.Version <$> stored = event.Version <$> l.
Proof.
  induction 1 as [|e e' l stored (_ & _ & _ & Hv) _ IH]; simpl; [reflexivity|].
  rewrite Hv. f_equal. exact IH.
Qed.

End Replay.

(** ** Monotone bids and contiguous versions *)

Section Monotone.
Import auction.

Lemma omap_Some_fmap {A B : Type} (g : A -> B) (l : list A) :
  omap (fun x => Some (g x)) l = g <$> l.
Proof. induction l as [|x l IH]; simpl; [reflexivity | f_equal; exact IH]. Qed.

(** In a list whose image under [f] is strictly increasing, an element
    that comes later has the greater image. *)
Lemma omap_sorted_lookup {A : Type} (f : A -> option Z) (l : list A) (i j : nat)
    (a b : A) (x y : Z) :
  StronglySorted Z.lt (omap f l) ->
  l !! i = Some a -> l !! j = Some b -> (i < j)%nat ->
  f a = Some x -> f b = Some y -> x < y.
Proof.
  intros Hsorted Hi Hj Hij Hx Hy.
  rewrite <- (take_drop (S i) l), omap_app in Hsorted.
  apply (StronglySorted_app_1_elem_of _ _ _ x y Hsorted).
  - apply list_elem_of_omap. exists a. split; [|exact Hx].
    apply (list_elem_of_lookup_2 _ i). rewrite lookup_take_lt by lia. exact Hi.
  - apply list_elem_of_omap. exists b. split; [|exact Hy].
    apply (list_elem_of_lookup_2 _ (j - S i)). rewrite lookup_drop.
    replace (S i + (j - S i))%nat with j by lia. exact Hj.
Qed.

Lemma sorted_last_max (l : list Z) (h x : Z) :
  StronglySorted Z.lt l -> last l = Some h -> x ∈ l -> x <= h.
Proof.
  intros Hsorted Hl Hx. apply last_Some in Hl as [l' ->].
  apply elem_of_app in Hx as [Hx|Hx].
  - apply Z.lt_le_incl.
    apply (StronglySorted_app_1_elem_of _ _ _ x h Hsorted Hx). apply list_elem_of_here.
  - apply list_elem_of_singleton in Hx. lia.
Qed.

Lemma sorted_snoc (l : list Z) (x : Z) :
  StronglySorted Z.lt l -> (forall h, last l = Some h -> h < x) ->
  StronglySorted Z.lt (l ++ [x]).
Proof.
  intros Hsorted Hlast. apply StronglySorted_app_2; [|exact Hsorted|].
  - intros x1 x2 H1 H2. apply list_elem_of_singleton in H2. subst x2.
    destruct (last l) as [h|] eqn:Hl.
    + pose proof (sorted_last_max l h x1 Hsorted Hl H1). specialize (Hlast h eq_refl). lia.
    + apply last_None in Hl. subst l. inversion H1.
  - repeat constructor.
Qed.

(** The invariant of a run: the amounts of the bids strictly increase,
    and they are the amounts of the bid events of the log, in order. *)
Lemma run_bids_sorted (id itemName startedBy : string) (minBid duration : Z)
    (cs : list Command) :
  let s := run (started id itemName startedBy minBid duration) cs in
  StronglySorted Z.lt (Amount <$> Bids (agg s))
  /\ omap bidAmount (log s) = Amount <$> Bids (agg s).
Proof.
  simpl.
  assert (H : let s := run (started id itemName startedBy minBid duration) cs in
              events (agg s) = []
              /\ StronglySorted Z.lt (Amount <$> Bids (agg s))
              /\ omap bidAmount (log s) = Amount <$> Bids (agg s));
    [|destruct H as (_ & H1 & H2); split; assumption].
  simpl. apply (run_invariant (fun s =>
    events (agg s) = []
    /\ StronglySorted Z.lt (Amount <$> Bids (agg s))
    /\ omap bidAmount (log s) = Amount <$> Bids (agg s))).
  - split; [reflexivity|]. split; [constructor | reflexivity].
  - intros s c (Hev & Hsorted & Hlog).
    destruct (step_cases s c Hev) as [[err ->] | (a' & e & -> & Heff)]; simpl; [auto|].
    destruct Heff as (_ & _ & _ & _ & _ & _ & Hev' & -> & Hc).
    split; [exact Hev'|]. rewrite omap_app, Hlog.
    destruct c as [p amount dkp now| |]; simpl in *.
    + destruct Hc as (_ & -> & _ & Hlast). rewrite fmap_app. simpl. split; [|reflexivity].
      apply sorted_snoc; [exact Hsorted|].
      intros h. rewrite fmap_last. destruct (last (Bids (agg s))) as [b|]; [|discriminate].
      intros [= <-]. apply (Hlast b eq_refl).
    + destruct Hc as (_ & ->). rewrite app_nil_r. split; [exact Hsorted | reflexivity].
    + destruct Hc as (_ & ->). rewrite app_nil_r. split; [exact Hsorted | reflexivity].
Qed.

(** The versions of the log of an auction aggregate are 1, 2, ..., N, and
    N is the version of the aggregate, as long as the count stays within
    [int]. *)
Lemma auction_versions_contiguous (id itemName startedBy : string)
    (minBid duration : Z) (cs : list Command) :
  Z.of_nat (length cs) < int_max ->
  let s := run (started id itemName startedBy minBid duration) cs in
  event.Version <$> log s = seqZ 1 (Z.of_nat (length (log s)))
  /\ Version (agg s) = Z.of_nat (length (log s))
  /\ (length (log s) <= S (length cs))%nat
  /\ events (agg s) = [].
Proof.
  simpl. induction cs as [|c cs IH] using rev_ind; intros Hbound.
  - repeat split. simpl. lia.
  - rewrite length_app in Hbound. simpl in Hbound.
    destruct IH as (Hvs & Hv & Hlen & Hev); [lia|].
    rewrite run_snoc.
    set (s := run (started id itemName startedBy minBid duration) cs) in *.
    rewrite length_app. simpl.
    destruct (step_cases s c Hev) as [[err ->] | (a' & e & -> & Heff)]; simpl.
    + repeat split; auto. lia.
    + destruct Heff as (_ & _ & _ & _ & _ & Hv' & Hev' & -> & _).
      rewrite Hv in Hv'. rewrite int_wrap_id in Hv' by (unfold int_min, int_max in *; lia).
      rewrite length_app. simpl.
      replace (length (log s) + 1)%nat with (S (length (log s))) by lia.
      rewrite fmap_app, Hvs, seqZ_S. simpl. rewrite Hv'.
      repeat split; try lia; try assumption.
      do 2 f_equal. lia.
Qed.

(** A run only ever extends the bids and the log. *)
Lemma run_append_only (s : RunState) (cs : list Command) :
  events (agg s) = [] ->
  Bids (agg s) `prefix_of` Bids (agg (run s cs))
  /\ log s `prefix_of` log (run s cs).
Proof.
  intros Hev.
  assert (H : events (agg (run s cs)) = []
              /\ Bids (agg s) `prefix_of` Bids (agg (run s cs))
              /\ log s `prefix_of` log (run s cs)); [|tauto].
  apply (run_invariant (fun s' =>
    events (agg s') = []
    /\ Bids (agg s) `prefix_of` Bids (agg s') /\ log s `prefix_of` log s')).
  - split; [exact Hev|]. split; reflexivity.
  - intros s' c (Hev' & Hb & Hl).
    destruct (step_cases s' c Hev') as [[err ->] | (a' & e & -> & Heff)]; simpl; [auto|].
    destruct Heff as (_ & _ & _ & _ & _ & _ & Hev'' & _ & Hc).
    split; [exact Hev''|]. split; [|apply prefix_app_r, Hl].
    destruct c; simpl in Hc.
    + destruct Hc as (_ & -> & _). apply prefix_app_r, Hb.
    + destruct Hc as (_ & ->). exact Hb.
    + destruct Hc as (_ & ->). exact Hb.
Qed.

(** The stored copy of an event carries the same bid amount. *)
Lemma persisted_bidAmount (e e' : event.Event) :
  persisted_as e e' -> bidAmount e' = bidAmount e.
Proof.
  intros (_ & Hty & [_ Hdata] & _). unfold bidAmount. rewrite Hty, Hdata. reflexivity.
Qed.

End Monotone.

(** C2, as the code has it.  The bid that the live aggregate holds
    carries the reading of its clock; the bid that [Replay] rebuilds from
    the event the aggregate emitted carries the event's [CreatedAt], which
    the aggregate never sets: after scenario S1 the bids of the two states
    differ. *)
Lemma C2_replayed_bid_time_differs :
  let s := run (started "a1" "Sword" "admin" 10 300000000000)
             [place_bid "A" 50 100 scenario.noon] in
  outcomes s = [None]
  /\ auction.Bids (agg s) = [auction.mkBid "A" 50 scenario.noon]
  /\ exists r, auction.Replay (log s) = Ok r
               /\ auction.Bids r = [auction.mkBid "A" 50 zero_Time]
               /\ auction.Bids r <> auction.Bids (agg s).
Proof.
  simpl. split; [reflexivity|]. split; [reflexivity|].
  eexists. split; [reflexivity|]. split; [reflexivity|]. discriminate.
Qed.

(** C2, amended.  For every sequence of commands on a fresh aggregate,
    the events it emitted are, as the event store keeps them, in
    ascending version 1, 2, ..., N, and replaying them gives a state with
    the ID, item name, starter, minimum bid, status and version of the
    live aggregate and with the same bids by player and amount, in the
    same order; the time of each replayed bid is the [CreatedAt] of its
    stored event.  The number of commands stays within [int]. *)
Theorem C2_replay_equivalence (id itemName startedBy : string) (minBid duration : Z)
    (cs : list Command) (stored : list event.Event) :
  Z.of_nat (length cs) < int_max ->
  let s := run (started id itemName startedBy minBid duration) cs in
  Forall2 persisted_as (log s) stored ->
  event.Version <$> stored = seqZ 1 (Z.of_nat (length stored))
  /\ exists r,
       auction.Replay stored = Ok r
       /\ auction.ID r = auction.ID (agg s)
       /\ auction.ItemName r = auction.ItemName (agg s)
       /\ auction.StartedBy r = auction.StartedBy (agg s)
       /\ auction.MinBid r = auction.MinBid (agg s)
       /\ auction.Status r = auction.Status (agg s)
       /\ auction.Version r = auction.Version (agg s)
       /\ bid_key <$> auction.Bids r = bid_key <$> auction.Bids (agg s)
       /\ auction.Time' <$> auction.Bids r
          = event.CreatedAt
              <$> filter (fun e => event.Type' e = event.AuctionBidPlaced) stored.
Proof.
  intros Hbound s Hstored. split.
  - destruct (auction_versions_contiguous id itemName startedBy minBid duration cs Hbound)
      as (Hvs & _).
    fold s in Hvs.
    rewrite <- (Forall2_length _ _ _ Hstored), <- Hvs.
    apply persisted_versions, Hstored.
  - destruct (replay_run id itemName startedBy minBid duration cs) as (_ & Hne & Hrun).
    fold s in Hne, Hrun.
    destruct (Hrun stored Hstored) as (r & Hr & Hsim).
    exists r. split; [|exact Hsim].
    rewrite Replay_nonempty; [exact Hr|].
    intros ->. apply Forall2_nil_inv_r in Hstored. contradiction.
Qed.

(** C2 amended, at scenarios S1 to S4, replaying the log as emitted. *)
Lemma C2_replay_equivalence_witness :
  let s := run (started "a1" "Sword" "admin" 10 300000000000) scenario.s1_s4 in
  exists r,
    auction.Replay (log s) = Ok r
    /\ auction.Status r = "closed"
    /\ auction.Version r = 4
    /\ bid_key <$> auction.Bids r = [("A", 50); ("B", 75)].
Proof.
  destruct (C2_replay_equivalence "a1" "Sword" "admin" 10 300000000000 scenario.s1_s4
              (log (run (started "a1" "Sword" "admin" 10 300000000000) scenario.s1_s4)))
    as (_ & r & Hr & _ & _ & _ & _ & Hst & Hv & Hb & _).
  - vm_compute. reflexivity.
  - apply Forall_Forall2_diag, Forall_forall. intros e _. repeat split.
  - exists r. split; [exact Hr|]. split; [exact Hst|]. split; [exact Hv | exact Hb].
Defined.

(** C6.  In every state a run of commands reaches, the amounts of the
    bids strictly increase with their position, so the last bid carries
    the greatest amount; in the log of the events the run emitted, and in
    the copy of it that the event store keeps, the amounts of the
    [auction.bid_placed] events strictly increase with the version; and
    further commands only ever extend the bids and the log.  The number
    of commands stays within [int]. *)
Theorem C6_bid_monotonicity (id itemName startedBy : string) (minBid duration : Z)
    (cs : list Command) :
  Z.of_nat (length cs) < int_max ->
  let s := run (started id itemName startedBy minBid duration) cs in
  (forall i j bi bj,
      auction.Bids (agg s) !! i = Some bi -> auction.Bids (agg s) !! j = Some bj ->
      (i < j)%nat -> auction.Amount bi < auction.Amount bj)
  /\ (forall h b,
        last (auction.Bids (agg s)) = Some h -> b ∈ auction.Bids (agg s) ->
        auction.Amount b <= auction.Amount h)
  /\ (forall stored e1 e2 x1 x2,
        Forall2 persisted_as (log s) stored ->
        e1 ∈ stored -> e2 ∈ stored ->
        bidAmount e1 = Some x1 -> bidAmount e2 = Some x2 ->
        event.Version e1 < event.Version e2 -> x1 < x2)
  /\ (forall cs',
        auction.Bids (agg s) `prefix_of` auction.Bids (agg (run s cs'))
        /\ log s `prefix_of` log (run s cs')).
Proof.
  intros Hbound s.
  destruct (run_bids_sorted id itemName startedBy minBid duration cs) as (Hsorted & Hlog).
  destruct (auction_versions_contiguous id itemName startedBy minBid duration cs Hbound)
    as (Hvs & _ & _ & Hev).
  fold s in Hsorted, Hlog, Hvs, Hev.
  split; [|split; [|split]].
  - intros i j bi bj Hi Hj Hij.
    rewrite <- omap_Some_fmap in Hsorted.
    apply (omap_sorted_lookup _ _ i j bi bj _ _ Hsorted Hi Hj Hij); reflexivity.
  - intros h b Hl Hb.
    apply (sorted_last_max (auction.Amount <$> auction.Bids (agg s))); [exact Hsorted| |].
    + rewrite fmap_last, Hl. reflexivity.
    + apply list_elem_of_fmap_2, Hb.
  - intros stored e1' e2' x1 x2 Hstored H1 H2 Hx1 Hx2 Hv.
    apply list_elem_of_lookup_1 in H1 as [i Hi']. apply list_elem_of_lookup_1 in H2 as [j Hj'].
    destruct (Forall2_lookup_r _ _ _ _ _ Hstored Hi') as (e1 & Hi & Hp1).
    destruct (Forall2_lookup_r _ _ _ _ _ Hstored Hj') as (e2 & Hj & Hp2).
    rewrite (persisted_bidAmount _ _ Hp1) in Hx1.
    rewrite (persisted_bidAmount _ _ Hp2) in Hx2.
    destruct Hp1 as (_ & _ & _ & Hv1). destruct Hp2 as (_ & _ & _ & Hv2).
    rewrite Hv1, Hv2 in Hv.
    rewrite <- Hlog in Hsorted.
    apply (omap_sorted_lookup _ _ i j e1 e2 _ _ Hsorted Hi Hj); [|exact Hx1|exact Hx2].
    assert (Hvi : (event.Version <$> log s) !! i = Some (event.Version e1))
      by (rewrite list_lookup_fmap, Hi; reflexivity).
    assert (Hvj : (event.Version <$> log s) !! j = Some (event.Version e2))
      by (rewrite list_lookup_fmap, Hj; reflexivity).
    rewrite Hvs in Hvi, Hvj.
    apply lookup_seqZ in Hvi as [Hvi _]. apply lookup_seqZ in Hvj as [Hvj _]. lia.
  - intros cs'. apply run_append_only, Hev.
Qed.

(** C6, at scenarios S1 to S4: two bids were accepted, and the second
    carries the greater amount. *)
Lemma C6_bid_monotonicity_witness :
  let s := run (started "a1" "Sword" "admin" 10 300000000000) scenario.s1_s4 in
  exists bi bj,
    auction.Bids (agg s) !! 0%nat = Some bi
    /\ auction.Bids (agg s) !! 1%nat = Some bj
    /\ auction.Amount bi < auction.Amount bj.
Proof.
  pose proof (C6_bid_monotonicity "a1" "Sword" "admin" 10 300000000000 scenario.s1_s4
                ltac:(vm_compute; reflexivity)) as (Hpos & _).
  exists (auction.mkBid "A" 50 scenario.noon), (auction.mkBid "B" 75 scenario.noon).
  split; [reflexivity|]. split; [reflexivity|].
  apply (Hpos 0%nat 1%nat); [reflexivity | reflexivity | lia].
Defined.

(** ** The coordinator and the DKP manager *)

Section Coordinator.
Context {S P : Type} `{!event.Store S} `{!store.PlayerRepository P}.
Import auction.

(** [CloseAuction] removes the auction it closed from the live table:
    through the coordinator, later commands on that id find no auction. *)
Lemma Manager_evicts_closed_auction (m : Manager.t S P) (id discordID : string)
    (a : Auction) (amount : Z) (now : Time) :
  Manager.auctions m !! id = Some a -> Status a = "open" ->
  let m' := (Manager.CloseAuction m id).1 in
  Manager.auctions m' !! id = None
  /\ Manager.PlaceBid m' id discordID amount now
     = (m', Some (fmt_Errorf ("auction " +:+ id +:+ " not found")))
  /\ Manager.CloseAuction m' id
     = (m', Err (fmt_Errorf ("auction " +:+ id +:+ " not found"))).
Proof.
  intros Hlook Hopen. simpl.
  assert (Hnone : Manager.auctions (Manager.CloseAuction m id).1 !! id = None).
  { unfold Manager.CloseAuction. rewrite Hlook.
    unfold Close, highestBid. rewrite (eqb_open_true _ Hopen). simpl.
    destruct (last (Bids a)); simpl;
      destruct (event.Append _ _); simpl; apply lookup_delete_eq. }
  split; [exact Hnone|].
  set (m' := (Manager.CloseAuction m id).1) in *. clearbody m'.
  unfold Manager.PlaceBid, Manager.CloseAuction. rewrite Hnone. split; reflexivity.
Qed.

End Coordinator.

(** C4, as the code has it.  The coordinator of the scenario has one open
    auction without bids, at version 1, and its database has gone away.
    A bid of 50 is accepted by the aggregate, the append of its event
    fails, and [PlaceBid] still reports success: the aggregate keeps the
    bid at version 2 while the table holds the start event only. *)
Lemma C4_unpersisted_bid_is_kept :
  let m := scenario.mgr1_down in
  let r := auction.Manager.PlaceBid m scenario.shield_id "discord-1" 50 scenario.noon in
  (auction.Bids <$> auction.Manager.auctions m !! scenario.shield_id) = Some []
  /\ (auction.Version <$> auction.Manager.auctions m !! scenario.shield_id) = Some 1
  /\ (postgres.Append (auction.Manager.events m)
        [event.mkEvent "" scenario.shield_id event.AuctionBidPlaced
           (event.marshalBidPlacedData (event.mkBidPlacedData "player-1" 50))
           2 zero_Time]).2
     = Some (fmt_Errorf_w "beginning transaction" postgres.driverError)
  /\ r.2 = None
  /\ (auction.Bids <$> auction.Manager.auctions r.1 !! scenario.shield_id)
     = Some [auction.mkBid "player-1" 50 scenario.noon]
  /\ (auction.Version <$> auction.Manager.auctions r.1 !! scenario.shield_id) = Some 2
  /\ event.Version <$> postgres.rows (auction.Manager.events r.1) = [1].
Proof. vm_compute. repeat split. Qed.

(** C4, amended.  When the aggregate accepts a bid and the append of its
    event fails, the failure is only logged: the coordinator's [PlaceBid]
    reports success and the aggregate keeps the mutation, with the bid
    appended, the version advanced, the status as before and the pending
    buffer drained. *)
Theorem C4_failed_persist_keeps_bid {S P : Type} `{!event.Store S}
    `{!store.PlayerRepository P} (m : auction.Manager.t S P)
    (auctionID discordID : string) (amount : Z) (now : Time)
    (a a' : auction.Auction) (player : store.Player) (e : error) :
  auction.Manager.auctions m !! auctionID = Some a ->
  store.GetByDiscordID (auction.Manager.players m) discordID = Ok player ->
  auction.PlaceBid a (store.ID player) amount (store.DKP player) now = (a', None) ->
  (event.Append (auction.Manager.events m) (auction.events a')).2 = Some e ->
  let r := auction.Manager.PlaceBid m auctionID discordID amount now in
  r.2 = None
  /\ exists a'',
       auction.Manager.auctions r.1 !! auctionID = Some a''
       /\ auction.Bids a''
          = auction.Bids a ++ [auction.mkBid (store.ID player) amount now]
       /\ auction.Version a'' = int_wrap (auction.Version a + 1)
       /\ auction.Status a'' = auction.Status a
       /\ auction.events a'' = [].
Proof.
  intros Hlook Hplayer Hbid Happend. simpl.
  unfold auction.Manager.PlaceBid. rewrite Hlook, Hplayer, Hbid. simpl.
  destruct (event.Append (auction.Manager.events m) (auction.events a')) as [es err].
  simpl. split; [reflexivity|].
  eexists. split; [apply lookup_insert_eq|].
  apply PlaceBid_accepted in Hbid as (_ & _ & _ & ->). repeat split.
Qed.

(** C4 amended, at the coordinator whose database has gone away. *)
Lemma C4_failed_persist_keeps_bid_witness :
  (auction.Manager.PlaceBid scenario.mgr1_down scenario.shield_id "discord-1" 50
     scenario.noon).2 = None.
Proof.
  refine (proj1 (C4_failed_persist_keeps_bid scenario.mgr1_down scenario.shield_id
                   "discord-1" 50 scenario.noon
                   (auction.mkAuction scenario.shield_id "Shield" "admin" 10 "open" [] 1 [])
                   _ scenario.player1
                   (fmt_Errorf_w "beginning transaction" postgres.driverError)
                   _ _ _ _)).
  - vm_compute. reflexivity.
  - vm_compute. reflexivity.
  - reflexivity.
  - vm_compute. reflexivity.
Defined.

(** C9, as the code has it.  The DKP manager of the scenario has one
    player with 200 DKP and an unreachable database.  Awarding 50 DKP
    updates the balance to 250, the append of the [dkp.awarded] event
    fails, and [AwardDKP] still returns no error; likewise for
    [DeductDKP] and [RegisterPlayer]. *)
Lemma C9_balance_kept_without_event :
  let r := dkp.Manager.AwardDKP scenario.dkp_down "player-1" 50 "raid" in
  (event.Append (dkp.Manager.events scenario.dkp_down)
     [event.mkEvent "" "player-1" event.DKPAwarded
        (event.marshalDKPChangeData (event.mkDKPChangeData "player-1" 50 "raid"))
        0 zero_Time]).2 <> None
  /\ r.2 = None
  /\ (store.DKP <$> dkp_test.players (dkp.Manager.players r.1) !! "discord-1") = Some 250
  /\ postgres.rows (dkp.Manager.events r.1) = []
  /\ (dkp.Manager.DeductDKP scenario.dkp_down "player-1" 30 "item").2 = None
  /\ (store.DKP <$> dkp_test.players
        (dkp.Manager.players
           (dkp.Manager.DeductDKP scenario.dkp_down "player-1" 30 "item").1)
        !! "discord-1") = Some 170
  /\ (exists p, (dkp.Manager.RegisterPlayer scenario.dkp_down "d2" "Frodo").2 = Ok p).
Proof.
  vm_compute. repeat split; try discriminate. eexists. reflexivity.
Qed.

(** C9, amended.  For [AwardDKP], [DeductDKP] and [RegisterPlayer]: a
    failure of the write to the player repository aborts the operation,
    which returns the error and appends no event; once that write has
    succeeded the operation reports success and the write stays in
    effect, whether the append of the event succeeds or fails. *)
Theorem C9_dkp_write_failures {S P : Type} `{!event.Store S}
    `{!store.PlayerRepository P} (m : dkp.Manager.t S P)
    (playerID reason discordID characterName : string) (amount : Z) :
  (forall pls e,
      store.UpdateDKP (dkp.Manager.players m) playerID amount = (pls, Some e) ->
      dkp.Manager.AwardDKP m playerID amount reason
      = (dkp.Manager.mk pls (dkp.Manager.events m), Some (fmt_Errorf_w "awarding DKP" e)))
  /\ (forall pls,
        store.UpdateDKP (dkp.Manager.players m) playerID amount = (pls, None) ->
        dkp.Manager.AwardDKP m playerID amount reason
        = (dkp.Manager.mk pls
             (event.Append (dkp.Manager.events m)
                [event.mkEvent "" playerID event.DKPAwarded
                   (event.marshalDKPChangeData
                      (event.mkDKPChangeData playerID amount reason))
                   0 zero_Time]).1,
           None))
  /\ (forall pls e,
        store.UpdateDKP (dkp.Manager.players m) playerID (int_wrap (- amount))
        = (pls, Some e) ->
        dkp.Manager.DeductDKP m playerID amount reason
        = (dkp.Manager.mk pls (dkp.Manager.events m), Some (fmt_Errorf_w "deducting DKP" e)))
  /\ (forall pls,
        store.UpdateDKP (dkp.Manager.players m) playerID (int_wrap (- amount))
        = (pls, None) ->
        dkp.Manager.DeductDKP m playerID amount reason
        = (dkp.Manager.mk pls
             (event.Append (dkp.Manager.events m)
                [event.mkEvent "" playerID event.DKPDeducted
                   (event.marshalDKPChangeData
                      (event.mkDKPChangeData playerID (int_wrap (- amount)) reason))
                   0 zero_Time]).1,
           None))
  /\ (forall pls p e,
        store.Create (dkp.Manager.players m)
          (store.mkPlayer "" discordID characterName 0 zero_Time zero_Time)
        = (pls, p, Some e) ->
        dkp.Manager.RegisterPlayer m discordID characterName
        = (dkp.Manager.mk pls (dkp.Manager.events m), Err (fmt_Errorf_w "creating player" e)))
  /\ (forall pls p,
        store.Create (dkp.Manager.players m)
          (store.mkPlayer "" discordID characterName 0 zero_Time zero_Time)
        = (pls, p, None) ->
        dkp.Manager.RegisterPlayer m discordID characterName
        = (dkp.Manager.mk pls
             (event.Append (dkp.Manager.events m)
                [event.mkEvent "" (store.ID p) event.PlayerRegistered
                   (event.marshalPlayerRegisteredData
                      (event.mkPlayerRegisteredData discordID characterName))
                   1 zero_Time]).1,
           Ok p)).
Proof.
  unfold dkp.Manager.AwardDKP, dkp.Manager.DeductDKP, dkp.Manager.RegisterPlayer.
  repeat split.
  - intros pls e ->. reflexivity.
  - intros pls ->. destruct (event.Append _ _). reflexivity.
  - intros pls e ->. reflexivity.
  - intros pls ->. destruct (event.Append _ _). reflexivity.
  - intros pls p e ->. reflexivity.
  - intros pls p ->. destruct (event.Append _ _). reflexivity.
Qed.

(** C9 amended, at both failures: the repository failing, and the
    database failing after the repository has been written. *)
Lemma C9_dkp_write_failures_witness :
  dkp.Manager.AwardDKP scenario.dkp_repo_fails "player-1" 50 "raid"
  = (scenario.dkp_repo_fails, Some (fmt_Errorf_w "awarding DKP" (fmt_Errorf "db error")))
  /\ (dkp.Manager.AwardDKP scenario.dkp_down "player-1" 50 "raid").2 = None.
Proof.
  split.
  - apply (C9_dkp_write_failures scenario.dkp_repo_fails "player-1" "raid" "d" "c" 50).
    reflexivity.
  - pose proof (C9_dkp_write_failures scenario.dkp_down "player-1" "raid" "d" "c" 50)
      as (_ & Hok & _).
    erewrite Hok; [reflexivity|]. vm_compute. reflexivity.
Defined.

(** ** Loading and replaying an unknown aggregate *)

Lemma filter_none {A : Type} (Q : A -> Prop) `{!forall x, Decision (Q x)} (l : list A) :
  (forall x, x ∈ l -> ~ Q x) -> filter Q l = [].
Proof.
  induction l as [|x l IH]; intros Hall; [reflexivity|].
  rewrite filter_cons_False by (apply Hall; left).
  apply IH. intros y Hy. apply Hall. right. exact Hy.
Qed.

(** C10.  For an aggregate id without stored events, [Load] returns the
    empty list and no error, whereas [Replay] of the empty list, and so
    the coordinator's [ReplayAuction] of that id, returns an error and no
    auction. *)
Theorem C10_replay_of_unknown_aggregate {P : Type} `{!store.PlayerRepository P}
    (m : auction.Manager.t postgres.EventStore P) (id : string) :
  postgres.up (auction.Manager.events m) = true ->
  (forall e, e ∈ postgres.rows (auction.Manager.events m) -> event.AggregateID e <> id) ->
  postgres.Load (auction.Manager.events m) id = Ok []
  /\ auction.Replay [] = Err (fmt_Errorf "no events to replay")
  /\ auction.Manager.ReplayAuction m id = Err (fmt_Errorf "no events to replay").
Proof.
  intros Hup Hnone.
  assert (Hload : postgres.Load (auction.Manager.events m) id = Ok []).
  { unfold postgres.Load. rewrite Hup. simpl.
    rewrite filter_none by exact Hnone. reflexivity. }
  split; [exact Hload|]. split; [reflexivity|].
  unfold auction.Manager.ReplayAuction. simpl. rewrite Hload. reflexivity.
Qed.

(** C10, at the coordinator of the scenario, whose table holds the
    events of one auction only. *)
Lemma C10_replay_of_unknown_aggregate_witness :
  postgres.Load (auction.Manager.events scenario.mgr1) "nonexistent" = Ok []
  /\ auction.Manager.ReplayAuction scenario.mgr1 "nonexistent"
     = Err (fmt_Errorf "no events to replay").
Proof.
  destruct (C10_replay_of_unknown_aggregate scenario.mgr1 "nonexistent")
    as (Hload & _ & Hreplay).
  - reflexivity.
  - intros e He. vm_compute in He. apply list_elem_of_singleton in He. subst e.
    vm_compute. discriminate.
  - split; [exact Hload | exact Hreplay].
Defined.

(** ** The versions of DKP events *)

(** C3, at a registration followed by two awards.  [RegisterPlayer]
    emits version 1 and every [AwardDKP] emits version 0: the store that
    records everything holds the versions 1, 0, 0; the database refuses
    the second award's event on its unique index, keeps 1, 0 and loads
    them as 0, 1. *)
Theorem C3_dkp_versions_two_awards :
  event.Version <$> auction_test.events (dkp.Manager.events scenario.dkp_awarded_twice)
  = [1; 0; 0]
  /\ event.Version <$> postgres.rows (dkp.Manager.events scenario.dkp_awarded_twice_pg)
     = [1; 0]
  /\ (exists evs,
        postgres.Load (dkp.Manager.events scenario.dkp_awarded_twice_pg) "test-id-d1"
        = Ok evs
        /\ event.Version <$> evs = [0; 1])
  /\ (store.DKP <$> dkp_test.players (dkp.Manager.players scenario.dkp_awarded_twice_pg)
        !! "d1") = Some 150.
Proof.
  vm_compute. repeat split. eexists. split; reflexivity.
Qed.

(** * Further properties of the code *)

(** ** The life of an aggregate *)

Section Lifecycle.
Import auction.

Lemma run_fixed_fields (id itemName startedBy : string) (minBid duration : Z)
    (cs : list Command) :
  let s := run (started id itemName startedBy minBid duration) cs in
  events (agg s) = []
  /\ ID (agg s) = id /\ ItemName (agg s) = itemName
  /\ StartedBy (agg s) = startedBy /\ MinBid (agg s) = minBid.
Proof.
  simpl. apply (run_invariant (fun s =>
    events (agg s) = []
    /\ ID (agg s) = id /\ ItemName (agg s) = itemName
    /\ StartedBy (agg s) = startedBy /\ MinBid (agg s) = minBid)).
  - repeat split.
  - intros s c (Hev & Hid & Hitem & Hby & Hmin).
    destruct (step_cases s c Hev) as [[err ->] | (a' & e & -> & Heff)]; simpl.
    + repeat split; assumption.
    + destruct Heff as (_ & -> & -> & -> & -> & _ & Hev' & _). repeat split; assumption.
Qed.

Lemma emitted_type_not_started (c : Command) : emitted_type c <> event.AuctionStarted.
Proof. destruct c; discriminate. Qed.

End Lifecycle.

(** X1.  The status of an aggregate follows its log.  After any commands the
    aggregate is open and its log holds no terminal event, or it is
    closed, or canceled, and the one terminal event of the log is the
    last event, [auction.closed] or [auction.cancelled] accordingly. *)
Theorem X_status_follows_log (id itemName startedBy : string) (minBid duration : Z)
    (cs : list Command) :
  let s := run (started id itemName startedBy minBid duration) cs in
  (auction.Status (agg s) = "open" /\ Forall (fun e => ~ is_terminal e) (log s))
  \/ (exists l e,
        log s = l ++ [e]
        /\ Forall (fun e => ~ is_terminal e) l
        /\ ((auction.Status (agg s) = "closed" /\ event.Type' e = event.AuctionClosed)
            \/ (auction.Status (agg s) = "canceled"
                /\ event.Type' e = event.AuctionCancelled))).
Proof.
  simpl.
  assert (H : let s := run (started id itemName startedBy minBid duration) cs in
    auction.events (agg s) = []
    /\ ((auction.Status (agg s) = "open" /\ Forall (fun e => ~ is_terminal e) (log s))
        \/ (exists l e,
              log s = l ++ [e]
              /\ Forall (fun e => ~ is_terminal e) l
              /\ ((auction.Status (agg s) = "closed"
                   /\ event.Type' e = event.AuctionClosed)
                  \/ (auction.Status (agg s) = "canceled"
                      /\ event.Type' e = event.AuctionCancelled)))));
    [|apply H].
  simpl. apply (run_invariant (fun s =>
    auction.events (agg s) = []
    /\ ((auction.Status (agg s) = "open" /\ Forall (fun e => ~ is_terminal e) (log s))
        \/ (exists l e,
              log s = l ++ [e]
              /\ Forall (fun e => ~ is_terminal e) l
              /\ ((auction.Status (agg s) = "closed"
                   /\ event.Type' e = event.AuctionClosed)
                  \/ (auction.Status (agg s) = "canceled"
                      /\ event.Type' e = event.AuctionCancelled)))))).
  - split; [reflexivity|]. left. split; [reflexivity|].
    repeat constructor. intros [H|H]; discriminate H.
  - intros s c [Hev IH]. split; [apply step_drained, Hev|].
    destruct (step_cases s c Hev) as [[err ->] | (a' & e & -> & Heff)]; simpl; [exact IH|].
    destruct Heff as (Hopen & _ & _ & _ & _ & _ & _ & -> & Hc).
    destruct IH as [[_ Hlog] | (l & e & _ & _ & [[Hst _]|[Hst _]])];
      [|rewrite Hst in Hopen; discriminate Hopen
       |rewrite Hst in Hopen; discriminate Hopen].
    destruct c as [p amount dkp now| |]; simpl in *.
    + left. destruct Hc as (-> & _). split; [reflexivity|].
      apply Forall_app. split; [exact Hlog|].
      repeat constructor. simpl. intros [H|H]; discriminate H.
    + right. destruct Hc as (-> & _). eexists _, _. split; [reflexivity|].
      split; [exact Hlog|]. left. split; reflexivity.
    + right. destruct Hc as (-> & _). eexists _, _. split; [reflexivity|].
      split; [exact Hlog|]. right. split; reflexivity.
Qed.

(** X2.  The log of an aggregate starts with the one start event, of version 1,
    whose payload decodes to the arguments of [New]; every event carries
    the id of the aggregate; and the id, item name, starter and minimum
    bid of the aggregate never change. *)
Theorem X_log_starts_with_started (id itemName startedBy : string)
    (minBid duration : Z) (cs : list Command) :
  let s := run (started id itemName startedBy minBid duration) cs in
  (exists rest,
      log s = startedEvent id itemName startedBy minBid duration :: rest
      /\ Forall (fun e => event.Type' e <> event.AuctionStarted) rest)
  /\ Forall (fun e => event.AggregateID e = id) (log s)
  /\ event.unmarshalAuctionStartedData
       (event.Data (startedEvent id itemName startedBy minBid duration))
     = Some (event.mkAuctionStartedData itemName startedBy minBid duration)
  /\ auction.ID (agg s) = id /\ auction.ItemName (agg s) = itemName
  /\ auction.StartedBy (agg s) = startedBy /\ auction.MinBid (agg s) = minBid.
Proof.
  simpl. split; [|split; [|split; [reflexivity|]]].
  - apply (run_invariant (fun s => auction.events (agg s) = []
      /\ exists rest,
           log s = startedEvent id itemName startedBy minBid duration :: rest
           /\ Forall (fun e => event.Type' e <> event.AuctionStarted) rest)).
    + split; [reflexivity|]. exists []. split; [reflexivity | constructor].
    + intros s c (Hev & rest & Hlog & Hrest). split; [apply step_drained, Hev|].
      destruct (step_cases s c Hev) as [[err ->] | (a' & e & -> & Heff)]; simpl; [eauto|].
      destruct Heff as (_ & _ & _ & _ & _ & _ & _ & -> & _).
      exists (rest ++ [event.mkEvent "" (auction.ID (agg s)) (emitted_type c)
                         (emitted_data (agg s) c) (auction.Version a') zero_Time]).
      rewrite Hlog. split; [reflexivity|].
      apply Forall_app. split; [exact Hrest|].
      repeat constructor. simpl. apply emitted_type_not_started.
  - apply (run_invariant (fun s => (auction.events (agg s) = [] /\ auction.ID (agg s) = id)
      /\ Forall (fun e => event.AggregateID e = id) (log s))).
    + repeat constructor.
    + intros s c ((Hev & Hid) & Hlog).
      destruct (step_cases s c Hev) as [[err ->] | (a' & e & -> & Heff)]; simpl; [auto|].
      destruct Heff as (_ & Hid' & _ & _ & _ & _ & Hev' & -> & _).
      split; [split; [exact Hev' | congruence]|].
      apply Forall_app. split; [exact Hlog|]. repeat constructor. exact Hid.
  - apply (run_fixed_fields id itemName startedBy minBid duration cs).
Qed.

(** ** Replay of any list of events *)

Section ReplayAny.
Import auction.

Lemma replayEvent_ok (a : Auction) (e : event.Event) :
  decodable e = true ->
  exists a', replayEvent a e = Ok a'
             /\ Version a' = event.Version e
             /\ events a' = events a
             /\ Time' <$> Bids a'
                = (Time' <$> Bids a)
                  ++ (event.CreatedAt
                        <$> filter (fun e => event.Type' e = event.AuctionBidPlaced) [e]).
Proof.
  unfold decodable, replayEvent. intros Hd.
  destruct (String.eqb_spec (event.Type' e) event.AuctionStarted) as [Hs|Hs].
  - apply bool_decide_eq_true in Hd as [d Hd]. rewrite Hd.
    rewrite filter_cons_False, filter_nil by (rewrite Hs; discriminate).
    eexists. split; [reflexivity|]. simpl. rewrite app_nil_r. repeat split.
  - destruct (String.eqb_spec (event.Type' e) event.AuctionBidPlaced) as [Hb|Hb].
    + apply bool_decide_eq_true in Hd as [d Hd]. rewrite Hd.
      rewrite filter_cons_True, filter_nil by exact Hb.
      eexists. split; [reflexivity|]. simpl. rewrite fmap_app. repeat split.
    + rewrite filter_cons_False, filter_nil by exact Hb. rewrite app_nil_r.
      destruct (String.eqb (event.Type' e) event.AuctionClosed);
        [|destruct (String.eqb (event.Type' e) event.AuctionCancelled)];
        eexists; (split; [reflexivity|]); repeat split.
Qed.

Lemma replayEvent_err (a : Auction) (e : event.Event) :
  decodable e = false -> exists err, replayEvent a e = Err err.
Proof.
  unfold decodable, replayEvent. intros Hd.
  destruct (String.eqb (event.Type' e) event.AuctionStarted).
  - apply bool_decide_eq_false in Hd.
    destruct (event.unmarshalAuctionStartedData (event.Data e)); [|eauto].
    exfalso. apply Hd. eauto.
  - destruct (String.eqb (event.Type' e) event.AuctionBidPlaced); [|discriminate].
    apply bool_decide_eq_false in Hd.
    destruct (event.unmarshalBidPlacedData (event.Data e)); [|eauto].
    exfalso. apply Hd. eauto.
Qed.

Lemma replayLoop_spec (evs : list event.Event) (a : Auction) :
  Forall (fun e => decodable e = true) evs ->
  exists a', replayLoop a evs = Ok a'
             /\ Version a' = default (Version a) (last (event.Version <$> evs))
             /\ events a' = events a
             /\ Time' <$> Bids a'
                = (Time' <$> Bids a)
                  ++ (event.CreatedAt
                        <$> filter (fun e => event.Type' e = event.AuctionBidPlaced) evs).
Proof.
  revert a. induction evs as [|e evs IH]; intros a Hall.
  - exists a. simpl. rewrite app_nil_r. repeat split.
  - apply Forall_cons in Hall as [He Hall].
    destruct (replayEvent_ok a e He) as (a1 & Hr & Hv & Hev & Ht).
    destruct (IH a1 Hall) as (a' & Hr' & Hv' & Hev' & Ht').
    exists a'. simpl. rewrite Hr. split; [exact Hr'|]. split; [|split].
    + rewrite Hv'. destruct evs as [|e2 evs]; [exact Hv|].
      rewrite !fmap_cons, last_cons_cons.
      destruct (last (event.Version e2 :: (event.Version <$> evs))) eqn:Hl; [reflexivity|].
      apply last_None in Hl. discriminate Hl.
    + congruence.
    + rewrite Ht', Ht, <- app_assoc, <- fmap_app.
      change (e :: evs) with ([e] ++ evs). rewrite filter_app. reflexivity.
Qed.

Lemma replayLoop_err (evs : list event.Event) (a : Auction) :
  Exists (fun e => decodable e = false) evs -> exists err, replayLoop a evs = Err err.
Proof.
  revert a. induction evs as [|e evs IH]; intros a Hex; [inversion Hex|].
  simpl. destruct (decodable e) eqn:Hd.
  - destruct (replayEvent_ok a e Hd) as (a1 & -> & _).
    apply IH. apply Exists_cons in Hex as [Hex|Hex]; [congruence | exact Hex].
  - destruct (replayEvent_err a e Hd) as [err ->]. eauto.
Qed.

End ReplayAny.

(** X3.  [Replay] fails exactly on the empty list and on a list that holds a
    start or bid event whose payload does not decode; it checks nothing
    else.  When it succeeds, the version of the auction is the version of
    the last event, its pending buffer is empty, and it holds one bid for
    each [auction.bid_placed] event, in order, with the [CreatedAt] of
    the event as its time.  The payloads are parsed JSON: an integer
    literal beyond 64 bits is not a [json.Number]. *)
Theorem X_replay_total_on_decodable (evs : list event.Event) :
  Forall (fun e => fits_int64 (event.Data e)) evs ->
  ((exists err, auction.Replay evs = Err err)
   <-> evs = [] \/ Exists (fun e => decodable e = false) evs)
  /\ (forall a, auction.Replay evs = Ok a ->
        last (event.Version <$> evs) = Some (auction.Version a)
        /\ auction.events a = []
        /\ auction.Time' <$> auction.Bids a
           = event.CreatedAt
               <$> filter (fun e => event.Type' e = event.AuctionBidPlaced) evs).
Proof.
  intros _.
  destruct (decide (Forall (fun e => decodable e = true) evs)) as [Hall|Hex].
  - destruct (replayLoop_spec evs auction.zero_Auction Hall) as (a' & Hr & Hv & Hev & Ht).
    destruct evs as [|e evs].
    + split; [split; [auto | intros _; eexists; reflexivity]|]. intros a [=].
    + change (auction.Replay (e :: evs)) with (auction.replayLoop auction.zero_Auction (e :: evs)).
      rewrite Hr. split.
      * split; [intros [err [=]]|]. intros [[=]|Hex]. exfalso.
        apply Exists_exists in Hex as (x & Hx & Hd).
        rewrite Forall_forall in Hall. rewrite (Hall x Hx) in Hd. discriminate.
      * intros a [= <-]. split; [|split; [exact Hev | exact Ht]].
        rewrite Hv. destruct (last (event.Version <$> e :: evs)) eqn:Hl; [reflexivity|].
        apply last_None in Hl. discriminate.
  - apply not_Forall_Exists in Hex; [|intros x; apply _].
    assert (Hex' : Exists (fun e => decodable e = false) evs).
    { eapply Exists_impl; [exact Hex|]. simpl. intros x Hx.
      destruct (decodable x); [contradiction | reflexivity]. }
    destruct (replayLoop_err evs auction.zero_Auction Hex') as [err Herr].
    assert (HR : auction.Replay evs = Err err).
    { destruct evs; [inversion Hex'|exact Herr]. }
    rewrite HR. split; [split; eauto|]. intros a [=].
Qed.

(** Decides [fits_int64] for the payloads of a concrete list of events. *)
Ltac solve_fits_int64 :=
  repeat (apply Forall_cons; split); try apply Forall_nil_2;
  simpl; intros n Hn; try discriminate Hn;
  injection Hn as <-; vm_compute; split; discriminate.

(** At a start event followed by a bid event.  When the amount of the
    bid is a string the list does not replay; when the key of the amount
    is written in upper case it does, and the bid has that amount. *)
Lemma X_replay_total_on_decodable_witness :
  (exists err,
      auction.Replay
        [scenario.started_row;
         event.mkEvent "uuid-1" scenario.shield_id event.AuctionBidPlaced
           (json.Valid (json.Object
              [("player_id", json.String "player-1"); ("amount", json.String "100")]))
           2 scenario.noon] = Err err)
  /\ (exists a,
        auction.Replay
          [scenario.started_row;
           event.mkEvent "uuid-1" scenario.shield_id event.AuctionBidPlaced
             (json.Valid (json.Object
                [("player_id", json.String "player-1"); ("AMOUNT", json.Number 100)]))
             2 scenario.noon] = Ok a
        /\ auction.Bids a = [auction.mkBid "player-1" 100 scenario.noon]
        /\ auction.Version a = 2).
Proof.
  split.
  - apply X_replay_total_on_decodable.
    + solve_fits_int64.
    + right. right. left. reflexivity.
  - exists (auction.mkAuction scenario.shield_id "Shield" "admin" 10 "open"
              [auction.mkBid "player-1" 100 scenario.noon] 2 []).
    split; [vm_compute; reflexivity|]. split; [reflexivity|].
    pose proof (X_replay_total_on_decodable
                  [scenario.started_row;
                   event.mkEvent "uuid-1" scenario.shield_id event.AuctionBidPlaced
                     (json.Valid (json.Object
                        [("player_id", json.String "player-1");
                         ("AMOUNT", json.Number 100)]))
                     2 scenario.noon]) as Hreplay.
    destruct Hreplay as [_ Hok]; [solve_fits_int64|].
    destruct (Hok (auction.mkAuction scenario.shield_id "Shield" "admin" 10 "open"
                     [auction.mkBid "player-1" 100 scenario.noon] 2 []))
      as (Hv & _); [vm_compute; reflexivity|].
    apply (f_equal (default 0)) in Hv. symmetry. exact Hv.
Defined.

(** ** The pending buffer *)

Section Pending.
Import auction.

(** No command reads the pending buffer: a command does to an aggregate
    with pending events what it does to the drained aggregate, and adds
    its event behind them. *)
Lemma apply_withEvents (a : Auction) (pending : list event.Event) (c : Command) :
  events a = [] ->
  apply (withEvents a pending) c
  = (withEvents (apply a c).1 (pending ++ events (apply a c).1), (apply a c).2).
Proof.
  intros Hev. destruct a as [id item by' min status bids version evs].
  simpl in Hev. subst evs.
  destruct c as [p amount dkp now| |]; unfold apply, withEvents; simpl.
  - unfold PlaceBid, highestBid; simpl.
    destruct (negb (String.eqb status "open")); [rewrite app_nil_r; reflexivity|].
    destruct (amount <? min); [rewrite app_nil_r; reflexivity|].
    destruct (amount >? dkp); [rewrite app_nil_r; reflexivity|].
    destruct (last bids) as [h|]; simpl.
    + destruct (String.eqb (PlayerID h) p); [rewrite app_nil_r; reflexivity|].
      destruct (amount <=? Amount h); [rewrite app_nil_r; reflexivity|]. reflexivity.
    + reflexivity.
  - unfold Close, highestBid; simpl.
    destruct (negb (String.eqb status "open")); simpl; [rewrite app_nil_r; reflexivity|].
    destruct (last bids); reflexivity.
  - unfold Cancel; simpl.
    destruct (negb (String.eqb status "open")); simpl; [rewrite app_nil_r; reflexivity|].
    reflexivity.
Qed.

Lemma withEvents_drained (a : Auction) : events a = [] -> withEvents a [] = a.
Proof. destruct a. simpl. intros ->. reflexivity. Qed.

Lemma step_undrained (s : RunState) (c : Command) :
  events (agg s) = [] ->
  (apply (withEvents (agg s) (log s)) c).1
  = withEvents (agg (step s c)) (log (step s c)).
Proof.
  intros Hev. rewrite (apply_withEvents _ _ _ Hev). simpl.
  unfold step. destruct (apply (agg s) c) as [a' [err|]] eqn:Happ; simpl.
  - assert (Ha' : a' = agg s).
    { destruct c; simpl in Happ.
      - apply PlaceBid_rejected in Happ. exact Happ.
      - destruct (Close (agg s)) as [[a1 w] e1] eqn:HC. simpl in Happ.
        inversion Happ; subst. apply Close_rejected in HC. exact HC.
      - apply Cancel_rejected in Happ. exact Happ. }
    subst a'. rewrite Hev, app_nil_r. reflexivity.
  - reflexivity.
Qed.

End Pending.

(** X4.  Draining once at the end gives what draining after every command
    gives: for commands applied to a fresh aggregate without a drain in
    between, [PendingEvents] returns all the events of the run, in order,
    and leaves the aggregate of the drained run; a second drain returns
    nothing. *)
Theorem X_drain_at_end (id itemName startedBy : string) (minBid duration : Z)
    (cs : list Command) :
  let a := applyAll (auction.New id itemName startedBy minBid duration) cs in
  let s := run (started id itemName startedBy minBid duration) cs in
  auction.PendingEvents a = (agg s, log s)
  /\ auction.PendingEvents (agg s) = (agg s, []).
Proof.
  simpl.
  assert (H : applyAll (auction.New id itemName startedBy minBid duration) cs
              = withEvents (agg (run (started id itemName startedBy minBid duration) cs))
                  (log (run (started id itemName startedBy minBid duration) cs))).
  { induction cs as [|c cs IH] using rev_ind; [reflexivity|].
    unfold applyAll in *. rewrite fold_left_app. simpl. rewrite IH, run_snoc.
    apply step_undrained, run_drained. }
  pose proof (run_drained id itemName startedBy minBid duration cs) as Hev.
  rewrite H. clear H.
  destruct (run (started id itemName startedBy minBid duration) cs) as [a l o].
  destruct a. simpl in Hev. subst. split; reflexivity.
Qed.

(** ** The winner in the log *)

Section Winner.
Import auction.

Lemma run_bid_events (id itemName startedBy : string) (minBid duration : Z)
    (cs : list Command) :
  let s := run (started id itemName startedBy minBid duration) cs in
  events (agg s) = []
  /\ omap bidOf (log s) = bid_key <$> Bids (agg s)
  /\ (Status (agg s) = "open" ->
      Forall (fun e => event.Type' e <> event.AuctionClosed) (log s))
  /\ Forall (fun e =>
       event.Type' e = event.AuctionClosed ->
       event.Data e
       = event.marshalAuctionClosedData
           match last (Bids (agg s)) with
           | Some w => event.mkAuctionClosedData (PlayerID w) (Amount w)
           | None => event.mkAuctionClosedData "" 0
           end) (log s).
Proof.
  simpl. apply (run_invariant (fun s =>
    events (agg s) = []
    /\ omap bidOf (log s) = bid_key <$> Bids (agg s)
    /\ (Status (agg s) = "open" ->
        Forall (fun e => event.Type' e <> event.AuctionClosed) (log s))
    /\ Forall (fun e =>
         event.Type' e = event.AuctionClosed ->
         event.Data e
         = event.marshalAuctionClosedData
             match last (Bids (agg s)) with
             | Some w => event.mkAuctionClosedData (PlayerID w) (Amount w)
             | None => event.mkAuctionClosedData "" 0
             end) (log s))).
  - split; [reflexivity|]. split; [reflexivity|]. split.
    + intros _. repeat constructor. discriminate.
    + repeat constructor. discriminate.
  - intros s c (Hev & Hbids & Hnone & Hdata).
    destruct (step_cases s c Hev) as [[err ->] | (a' & e & -> & Heff)]; simpl; [auto|].
    destruct Heff as (Hopen & _ & _ & _ & _ & _ & Hev' & -> & Hc).
    specialize (Hnone Hopen).
    split; [exact Hev'|]. rewrite omap_app.
    destruct c as [p amount dkp now| |]; simpl in *.
    + destruct Hc as (Hst & -> & _). rewrite fmap_app, Hbids. split; [reflexivity|].
      split.
      * intros _. apply Forall_app. split; [exact Hnone|]. repeat constructor. discriminate.
      * apply Forall_app. split.
        -- eapply Forall_impl; [exact Hnone|]. simpl. intros x Hx Hx'. contradiction.
        -- repeat constructor. discriminate.
    + destruct Hc as (Hst & ->). rewrite app_nil_r. split; [exact Hbids|]. split.
      * rewrite Hst. discriminate.
      * apply Forall_app. split.
        -- eapply Forall_impl; [exact Hnone|]. simpl. intros x Hx Hx'. contradiction.
        -- repeat constructor.
    + destruct Hc as (Hst & ->). rewrite app_nil_r. split; [exact Hbids|]. split.
      * rewrite Hst. discriminate.
      * apply Forall_app. split.
        -- eapply Forall_impl; [exact Hnone|]. simpl. intros x Hx Hx'. contradiction.
        -- repeat constructor. discriminate.
Qed.

End Winner.

(** X5.  The [auction.closed] event of a log names the winner the log itself
    determines: its payload is the JSON object whose members [winner_id]
    and [amount] are the bidder and the amount of the last
    [auction.bid_placed] event of the log, or the empty string and 0 when
    the log holds no bid. *)
Theorem X_closed_event_names_last_bid (id itemName startedBy : string)
    (minBid duration : Z) (cs : list Command) (e : event.Event) :
  let s := run (started id itemName startedBy minBid duration) cs in
  e ∈ log s -> event.Type' e = event.AuctionClosed ->
  event.Data e
  = json.Valid (json.Object
      match last (omap bidOf (log s)) with
      | Some (p, amount) =>
          [("winner_id", json.String p); ("amount", json.Number amount)]
      | None => [("winner_id", json.String ""); ("amount", json.Number 0)]
      end).
Proof.
  intros s He Hty.
  destruct (run_bid_events id itemName startedBy minBid duration cs)
    as (_ & Hbids & _ & Hdata).
  fold s in Hbids, Hdata.
  rewrite Forall_forall in Hdata. rewrite (Hdata e He Hty), Hbids, fmap_last.
  destruct (last (auction.Bids (agg s))); reflexivity.
Qed.

(** At scenarios S1 to S4: the log ends with the closed event, which
    names B and 75. *)
Lemma X_closed_event_names_last_bid_witness :
  let s := run (started "a1" "Sword" "admin" 10 300000000000) scenario.s1_s4 in
  exists e, last (log s) = Some e
            /\ event.Data e
               = json.Valid (json.Object
                   [("winner_id", json.String "B"); ("amount", json.Number 75)]).
Proof.
  exists (event.mkEvent "" "a1" event.AuctionClosed
            (event.marshalAuctionClosedData (event.mkAuctionClosedData "B" 75))
            4 zero_Time).
  split; [vm_compute; reflexivity|].
  rewrite (X_closed_event_names_last_bid "a1" "Sword" "admin" 10 300000000000
             scenario.s1_s4).
  - vm_compute. reflexivity.
  - vm_compute. do 3 right. left.
  - reflexivity.
Defined.

(** ** The coordinator: errors and eviction *)

(** X6.  [CloseAuction] removes the auction it closed from the live
    table, whatever the event store made of the close event: through the
    coordinator, a later bid or close on that id fails with "not found"
    and changes nothing. *)
Theorem X_closed_auction_not_found {S P : Type} `{!event.Store S}
    `{!store.PlayerRepository P} (m : auction.Manager.t S P) (id discordID : string)
    (a : auction.Auction) (amount : Z) (now : Time) :
  auction.Manager.auctions m !! id = Some a -> auction.Status a = "open" ->
  let m' := (auction.Manager.CloseAuction m id).1 in
  auction.Manager.auctions m' !! id = None
  /\ auction.Manager.PlaceBid m' id discordID amount now
     = (m', Some (fmt_Errorf ("auction " +:+ id +:+ " not found")))
  /\ auction.Manager.CloseAuction m' id
     = (m', Err (fmt_Errorf ("auction " +:+ id +:+ " not found"))).
Proof. apply Manager_evicts_closed_auction. Qed.

(** At the coordinator of the scenario: after [CloseAuction] the auction
    is gone from the live table and a bid on it is not found. *)
Lemma X_closed_auction_not_found_witness :
  let m' := (auction.Manager.CloseAuction scenario.mgr1 scenario.shield_id).1 in
  auction.Manager.auctions m' !! scenario.shield_id = None
  /\ auction.Manager.PlaceBid m' scenario.shield_id "discord-1" 50 scenario.noon
     = (m', Some (fmt_Errorf ("auction " +:+ scenario.shield_id +:+ " not found"))).
Proof.
  destruct (X_closed_auction_not_found scenario.mgr1 scenario.shield_id "discord-1"
              scenario.shield_live 50 scenario.noon)
    as (Hnone & Hbid & _).
  - vm_compute. reflexivity.
  - reflexivity.
  - split; [exact Hnone | exact Hbid].
Defined.

(** X7.  A call of the coordinator's [PlaceBid] that returns an error changes
    nothing, neither the live table nor the event store nor the players;
    and the error is "not found" for an unknown auction id, the wrapped
    error of the player lookup, or else the very error of the aggregate,
    one of its four sentinel errors. *)
Theorem X_failed_bid_changes_nothing {S P : Type} `{!event.Store S}
    `{!store.PlayerRepository P} (m : auction.Manager.t S P)
    (auctionID discordID : string) (amount : Z) (now : Time) (e : error) :
  (auction.Manager.PlaceBid m auctionID discordID amount now).2 = Some e ->
  (auction.Manager.PlaceBid m auctionID discordID amount now).1 = m
  /\ ((auction.Manager.auctions m !! auctionID = None
       /\ e = fmt_Errorf ("auction " +:+ auctionID +:+ " not found"))
      \/ (exists e', store.GetByDiscordID (auction.Manager.players m) discordID = Err e'
                     /\ e = fmt_Errorf_w "player not registered" e')
      \/ (exists a player,
            auction.Manager.auctions m !! auctionID = Some a
            /\ store.GetByDiscordID (auction.Manager.players m) discordID = Ok player
            /\ (auction.PlaceBid a (store.ID player) amount (store.DKP player) now).2
               = Some e
            /\ e ∈ [auction.ErrAuctionClosed; auction.ErrBidTooLow;
                    auction.ErrInsufficientDKP; auction.ErrSelfOutbid])).
Proof.
  unfold auction.Manager.PlaceBid.
  destruct (auction.Manager.auctions m !! auctionID) as [a|] eqn:Hlook.
  - destruct (store.GetByDiscordID (auction.Manager.players m) discordID)
      as [player|e'] eqn:Hplayer.
    + destruct (auction.PlaceBid a (store.ID player) amount (store.DKP player) now)
        as [a' [err|]] eqn:Hbid; simpl.
      * intros [= ->]. apply PlaceBid_rejected in Hbid as Ha'. subst a'.
        split; [rewrite (insert_id _ _ _ Hlook); destruct m; reflexivity|].
        right. right. exists a, player. rewrite Hbid. repeat split.
        revert Hbid. unfold auction.PlaceBid.
        repeat match goal with
               | |- context [if ?c then _ else _] => destruct c
               end; intros [= <-]; set_solver.
      * destruct (event.Append _ _). simpl. discriminate.
    + simpl. intros [= <-]. split; [reflexivity|]. right. left. eauto.
  - simpl. intros [= <-]. split; [reflexivity|]. left. split; reflexivity.
Qed.

(** At the coordinator of the scenario: a bid above the balance of 200. *)
Lemma X_failed_bid_changes_nothing_witness :
  (auction.Manager.PlaceBid scenario.mgr1 scenario.shield_id "discord-1" 500
     scenario.noon).1 = scenario.mgr1.
Proof.
  apply (X_failed_bid_changes_nothing scenario.mgr1 scenario.shield_id "discord-1" 500
           scenario.noon auction.ErrInsufficientDKP).
  vm_compute. reflexivity.
Defined.

(** X8.  [CloseAuction] of an open auction answers with the empty message
    exactly when the auction had no bid, which is how its caller tells a
    close without a winner. *)
Theorem X_close_message_empty_iff_no_bid {S P : Type} `{!event.Store S}
    `{!store.PlayerRepository P} (m : auction.Manager.t S P) (auctionID : string)
    (a : auction.Auction) :
  auction.Manager.auctions m !! auctionID = Some a ->
  auction.Status a = "open" ->
  exists msg, (auction.Manager.CloseAuction m auctionID).2 = Ok msg
              /\ (msg = "" <-> auction.Bids a = []).
Proof.
  intros Hlook Hopen. unfold auction.Manager.CloseAuction. rewrite Hlook.
  unfold auction.Close, auction.highestBid. rewrite (eqb_open_true _ Hopen). simpl.
  destruct (last (auction.Bids a)) as [w|] eqn:Hl; simpl;
    destruct (event.Append _ _); simpl; eexists; (split; [reflexivity|]).
  - split; [discriminate|]. intros Hnil. rewrite Hnil in Hl. discriminate.
  - split; [intros _; apply last_None, Hl | reflexivity].
Qed.

(** At the coordinator of the scenario, whose auction has no bid. *)
Lemma X_close_message_empty_iff_no_bid_witness :
  (auction.Manager.CloseAuction scenario.mgr1 scenario.shield_id).2 = Ok "".
Proof.
  destruct (X_close_message_empty_iff_no_bid scenario.mgr1 scenario.shield_id
              (auction.mkAuction scenario.shield_id "Shield" "admin" 10 "open" [] 1 [])
              ltac:(vm_compute; reflexivity) eq_refl) as (msg & Hmsg & Hiff).
  rewrite Hmsg. f_equal. apply Hiff. reflexivity.
Defined.

(** ** The event store *)

Section EventStore.
Import postgres.

Lemma conflicts_false (table : list event.Event) (e : event.Event) :
  conflicts table e = false <-> key e ∉ key <$> table.
Proof.
  unfold conflicts. induction table as [|r table IH]; simpl.
  - split; [intros _; apply not_elem_of_nil | reflexivity].
  - rewrite orb_false_iff, IH, not_elem_of_cons.
    assert (Hk : String.eqb (event.AggregateID r) (event.AggregateID e)
                 && (event.Version r =? event.Version e) = false
                 <-> key e <> key r).
    { unfold key.
      destruct (String.eqb_spec (event.AggregateID r) (event.AggregateID e)) as [Ha|Ha];
        destruct (Z.eqb_spec (event.Version r) (event.Version e)) as [Hv|Hv]; simpl;
        split; congruence. }
    rewrite Hk. reflexivity.
Qed.

Lemma key_stamped (n : nat) (now : Time) (i : nat) (e : event.Event) :
  key (stamped n now i e) = key e.
Proof. reflexivity. Qed.

Lemma insertRow_ok (table : list event.Event) (now : Time) (e : event.Event) :
  storable e -> key e ∉ key <$> table ->
  insertRow table now e = Ok (table ++ [stamped (length table) now 0 e]).
Proof.
  intros [Hd [Hlo Hhi]] Hk. unfold insertRow.
  destruct (event.Data e) as [v|] eqn:Hdata; [|contradiction].
  apply Z.leb_le in Hlo, Hhi. rewrite Hlo, Hhi. simpl.
  apply conflicts_false in Hk. rewrite Hk.
  unfold stamped. rewrite Nat.add_0_r, Hdata. reflexivity.
Qed.

Lemma insertRow_Ok_inv (table table' : list event.Event) (now : Time)
    (e : event.Event) :
  insertRow table now e = Ok table' -> storable e /\ key e ∉ key <$> table.
Proof.
  unfold insertRow, storable.
  destruct (event.Data e) as [v|]; [|discriminate].
  destruct (int32_min <=? event.Version e) eqn:Hlo; [|discriminate].
  destruct (event.Version e <=? int32_max) eqn:Hhi; [|discriminate].
  simpl. destruct (conflicts table e) eqn:Hc; [discriminate|].
  intros _. apply Z.leb_le in Hlo, Hhi. apply conflicts_false in Hc.
  split; [split; [discriminate | lia] | exact Hc].
Qed.

Lemma insertAll_ok (evs : list event.Event) (table : list event.Event) (now : Time) :
  NoDup (key <$> evs) -> (forall e, e ∈ evs -> key e ∉ key <$> table) ->
  Forall storable evs ->
  insertAll table now evs = Ok (table ++ imap (stamped (length table) now) evs).
Proof.
  revert table. induction evs as [|e evs IH]; intros table Hnd Hfresh Hst; simpl.
  - rewrite app_nil_r. reflexivity.
  - rewrite fmap_cons in Hnd. apply NoDup_cons in Hnd as [He Hnd].
    apply Forall_cons in Hst as [Hse Hst].
    rewrite (insertRow_ok table now e Hse) by (apply Hfresh; left).
    rewrite IH.
    + rewrite <- app_assoc. simpl. do 3 f_equal.
      apply imap_ext. intros i x _. simpl. unfold stamped.
      rewrite length_app. simpl. do 3 f_equal. lia.
    + exact Hnd.
    + intros x Hx. rewrite fmap_app, not_elem_of_app. split.
      * apply Hfresh. right. exact Hx.
      * simpl. rewrite not_elem_of_cons. split; [|apply not_elem_of_nil].
        change (key x <> key e). intros Heq. apply He. rewrite <- Heq.
        apply list_elem_of_fmap_2, Hx.
    + exact Hst.
Qed.

Lemma insertAll_Ok_inv (evs : list event.Event) (table table' : list event.Event)
    (now : Time) :
  insertAll table now evs = Ok table' ->
  NoDup (key <$> evs) /\ (forall e, e ∈ evs -> key e ∉ key <$> table)
  /\ Forall storable evs.
Proof.
  revert table. induction evs as [|e evs IH]; intros table; simpl.
  - intros _. split; [constructor|]. split; [|constructor].
    intros e He. inversion He.
  - destruct (insertRow table now e) as [t1|] eqn:Hrow; [|discriminate].
    destruct (insertRow_Ok_inv _ _ _ _ Hrow) as [Hse Hc].
    rewrite (insertRow_ok table now e Hse Hc) in Hrow. injection Hrow as <-.
    intros Hins. destruct (IH _ Hins) as (Hnd & Hfresh & Hst).
    split; [|split; [|constructor; assumption]].
    + apply NoDup_cons. split; [|exact Hnd].
      intros Hin. apply list_elem_of_fmap in Hin as (x & Hk & Hx).
      apply (Hfresh x Hx). rewrite fmap_app, elem_of_app. right.
      simpl. rewrite <- Hk. left.
    + intros x Hx. apply elem_of_cons in Hx as [->|Hx]; [exact Hc|].
      specialize (Hfresh x Hx).
      rewrite fmap_app, not_elem_of_app in Hfresh. apply Hfresh.
Qed.

(** The two outcomes of [Append]. *)
Lemma Append_cases (s : EventStore) (evs : list event.Event) :
  (up s = true
   /\ NoDup (key <$> evs)
   /\ (forall e, e ∈ evs -> key e ∉ key <$> rows s)
   /\ Forall storable evs
   /\ Append s evs
      = (mkEventStore (rows s ++ imap (stamped (length (rows s)) (now s)) evs)
           (up s) (now s), None))
  \/ (~ (up s = true
         /\ NoDup (key <$> evs)
         /\ (forall e, e ∈ evs -> key e ∉ key <$> rows s)
         /\ Forall storable evs)
      /\ (Append s evs).1 = s
      /\ exists e, (Append s evs).2 = Some e).
Proof.
  unfold Append. destruct (up s) eqn:Hup; simpl.
  - destruct (insertAll (rows s) (now s) evs) as [table|e] eqn:Hins.
    + left. destruct (insertAll_Ok_inv _ _ _ _ Hins) as (Hnd & Hfresh & Hst).
      rewrite (insertAll_ok evs _ _ Hnd Hfresh Hst) in Hins. inversion Hins.
      repeat split; assumption.
    + right. split; [|eauto]. intros (_ & Hnd & Hfresh & Hst).
      rewrite (insertAll_ok evs _ _ Hnd Hfresh Hst) in Hins. discriminate.
  - right. split; [|eauto]. intros [[=] _].
Qed.

Lemma storable_started (id itemName startedBy : string) (minBid duration : Z) :
  storable (startedEvent id itemName startedBy minBid duration).
Proof. split; [discriminate | unfold int32_min, int32_max; simpl; lia]. Qed.

Lemma keys_stamped (n : nat) (now : Time) (evs : list event.Event) :
  key <$> imap (stamped n now) evs = key <$> evs.
Proof.
  rewrite fmap_imap. rewrite <- (imap_const key evs).
  apply imap_ext. intros i x _. reflexivity.
Qed.


End EventStore.



(** X10.  The keys of the table stay pairwise distinct under [Append], whatever
    the batch. *)
Theorem X_append_keeps_keys_unique (s : postgres.EventStore) (evs : list event.Event) :
  NoDup (key <$> postgres.rows s) ->
  NoDup (key <$> postgres.rows (postgres.Append s evs).1).
Proof.
  intros Hnd.
  destruct (Append_cases s evs) as [(Hup & Hk & Hfresh & _ & ->) | (_ & -> & _)];
    [|exact Hnd].
  simpl. rewrite fmap_app. apply NoDup_app. split; [exact Hnd|]. split.
  - intros k Hk1 Hk2. apply list_elem_of_fmap in Hk2 as (r & -> & Hr).
    apply elem_of_lookup_imap in Hr as (i & e & -> & Hi).
    rewrite key_stamped in Hk1. apply (Hfresh e); [|exact Hk1].
    apply (list_elem_of_lookup_2 _ i), Hi.
  - rewrite keys_stamped. exact Hk.
Qed.

(** At the database of the scenario after [StartAuction]: the same start
    event once more is refused and the table stays as it is. *)
Lemma X_append_keeps_keys_unique_witness :
  NoDup (key <$> postgres.rows
           (postgres.Append (auction.Manager.events scenario.mgr1)
              [startedEvent scenario.shield_id "Shield" "admin" 10 300000000000]).1).
Proof.
  apply (X_append_keeps_keys_unique (auction.Manager.events scenario.mgr1)).
  vm_compute. apply NoDup_singleton.
Defined.

Section Ordering.
Import postgres.

Lemma insertBy_perm (k : event.Event -> Z) (e : event.Event) (l : list event.Event) :
  insertBy k e l ≡ₚ e :: l.
Proof.
  induction l as [|x l IH]; simpl; [reflexivity|].
  destruct (k e <? k x); [reflexivity|].
  rewrite IH. apply Permutation_swap.
Qed.

Lemma insertBy_sorted (k : event.Event -> Z) (e : event.Event) (l : list event.Event) :
  StronglySorted (fun x y => k x <= k y) l ->
  StronglySorted (fun x y => k x <= k y) (insertBy k e l).
Proof.
  induction 1 as [|x l Hl IH Hx]; simpl; [repeat constructor|].
  destruct (Z.ltb_spec (k e) (k x)) as [Hlt|Hge].
  - constructor; [constructor; assumption|].
    constructor; [lia|]. eapply Forall_impl; [exact Hx|]. simpl. intros y Hy. lia.
  - constructor; [exact IH|].
    rewrite (insertBy_perm k e l). constructor; [lia | exact Hx].
Qed.

Lemma orderBy_acc (k : event.Event -> Z) (l acc : list event.Event) :
  StronglySorted (fun x y => k x <= k y) acc ->
  fold_left (fun acc e => insertBy k e acc) l acc ≡ₚ acc ++ l
  /\ StronglySorted (fun x y => k x <= k y)
       (fold_left (fun acc e => insertBy k e acc) l acc).
Proof.
  revert acc. induction l as [|e l IH]; intros acc Hacc; simpl.
  - rewrite app_nil_r. split; [reflexivity | exact Hacc].
  - destruct (IH (insertBy k e acc) (insertBy_sorted k e acc Hacc)) as [Hp Hs].
    split; [|exact Hs]. rewrite Hp, (insertBy_perm k e acc).
    rewrite (Permutation_middle acc l e). reflexivity.
Qed.

Lemma orderBy_spec (k : event.Event -> Z) (l : list event.Event) :
  orderBy k l ≡ₚ l /\ StronglySorted (fun x y => k x <= k y) (orderBy k l).
Proof. apply (orderBy_acc k l []). constructor. Qed.

(** A row goes behind the rows whose key is not greater. *)
Lemma insertBy_last (k : event.Event -> Z) (e : event.Event) (l : list event.Event) :
  Forall (fun x => k x <= k e) l -> insertBy k e l = l ++ [e].
Proof.
  induction 1 as [|x l Hx _ IH]; simpl; [reflexivity|].
  destruct (Z.ltb_spec (k e) (k x)); [lia|]. rewrite IH. reflexivity.
Qed.

(** Ordering leaves an ascending list as it is. *)
Lemma orderBy_sorted_id (k : event.Event -> Z) (l : list event.Event) :
  StronglySorted (fun x y => k x <= k y) l -> orderBy k l = l.
Proof.
  unfold orderBy. induction l as [|e l IH] using rev_ind; intros Hs; [reflexivity|].
  rewrite fold_left_app. simpl.
  apply StronglySorted_app in Hs as (Hle & Hl & _).
  rewrite (IH Hl). apply insertBy_last.
  apply Forall_forall. intros x Hx. apply Hle; [exact Hx | left].
Qed.

End Ordering.

(** X11.  [Load] on a database that answers returns the rows of the aggregate,
    all of them and no other, in ascending version; when the keys of the
    table are pairwise distinct, as [Append] keeps them, the versions
    strictly ascend.  When the database does not answer, [Load] returns
    an error. *)
Theorem X_load_sorted_by_version (s : postgres.EventStore) (aggregateID : string) :
  (postgres.up s = false -> exists e, postgres.Load s aggregateID = Err e)
  /\ (postgres.up s = true ->
      exists evs,
        postgres.Load s aggregateID = Ok evs
        /\ evs ≡ₚ filter (fun e => event.AggregateID e = aggregateID) (postgres.rows s)
        /\ StronglySorted (fun x y => event.Version x <= event.Version y) evs
        /\ (NoDup (key <$> postgres.rows s) ->
            StronglySorted (fun x y => event.Version x < event.Version y) evs)).
Proof.
  unfold postgres.Load. split; intros ->; simpl; [eauto|].
  destruct (orderBy_spec event.Version
              (filter (fun e => event.AggregateID e = aggregateID) (postgres.rows s)))
    as [Hp Hs].
  eexists. split; [reflexivity|]. split; [exact Hp|]. split; [exact Hs|].
  intros Hnd.
  assert (Hnd' : NoDup (event.Version <$>
                          postgres.orderBy event.Version
                            (filter (fun e => event.AggregateID e = aggregateID)
                               (postgres.rows s)))).
  { rewrite Hp. clear Hp Hs.
    induction (postgres.rows s) as [|r rows IH]; [constructor|].
    rewrite fmap_cons in Hnd. apply NoDup_cons in Hnd as [Hr Hnd].
    destruct (decide (event.AggregateID r = aggregateID)) as [Ha|Ha].
    - rewrite filter_cons_True by exact Ha. rewrite fmap_cons. apply NoDup_cons.
      split; [|apply IH, Hnd].
      intros Hin. apply list_elem_of_fmap in Hin as (x & Hv & Hx).
      apply list_elem_of_filter in Hx as [Hxa Hx]. apply Hr.
      apply list_elem_of_fmap. exists x. split; [|exact Hx].
      unfold key. congruence.
    - rewrite filter_cons_False by exact Ha. apply IH, Hnd. }
  revert Hs Hnd'.
  generalize (postgres.orderBy event.Version
                (filter (fun e => event.AggregateID e = aggregateID) (postgres.rows s))).
  intros l Hs. induction Hs as [|x l Hl IH Hx]; intros Hnd'; [constructor|].
  rewrite fmap_cons in Hnd'. apply NoDup_cons in Hnd' as [Hx' Hnd'].
  constructor; [apply IH, Hnd'|].
  apply Forall_forall. intros y Hy. rewrite Forall_forall in Hx.
  specialize (Hx y Hy).
  assert (event.Version x <> event.Version y); [|lia].
  intros Heq. apply Hx'. rewrite Heq. apply list_elem_of_fmap_2, Hy.
Qed.

(** X12.  [LoadByType] on a database that answers returns the rows of the
    type, all of them and no other, in ascending time of creation. *)
Theorem X_load_by_type_sorted (s : postgres.EventStore) (eventType : event.Type_) :
  postgres.up s = true ->
  exists evs,
    postgres.LoadByType s eventType = Ok evs
    /\ evs ≡ₚ filter (fun e => event.Type' e = eventType) (postgres.rows s)
    /\ StronglySorted (fun x y => event.CreatedAt x <= event.CreatedAt y) evs.
Proof.
  unfold postgres.LoadByType. intros ->. simpl.
  destruct (orderBy_spec event.CreatedAt
              (filter (fun e => event.Type' e = eventType) (postgres.rows s)))
    as [Hp Hs].
  eexists. split; [reflexivity|]. split; [exact Hp | exact Hs].
Qed.

(** At the database of the scenario after [StartAuction]. *)
Lemma X_load_by_type_sorted_witness :
  exists evs,
    postgres.LoadByType (auction.Manager.events scenario.mgr1) event.AuctionStarted
    = Ok evs
    /\ length evs = 1%nat.
Proof.
  destruct (X_load_by_type_sorted (auction.Manager.events scenario.mgr1)
              event.AuctionStarted eq_refl) as (evs & Hload & Hp & _).
  exists evs. split; [exact Hload|]. rewrite Hp. vm_compute. reflexivity.
Defined.

(** ** Starting an auction against the database *)

(** X13.  [StartAuction] over the database succeeds exactly when the database
    answers and its table holds no start event (version 1) for the id
    derived from the reading of the clock.  Then the open auction,
    without bids and at version 1, is put in the live table under that id
    and its start event is the one new row of the table.  Otherwise
    [StartAuction] returns an error and changes nothing: an id that was
    used before, by a live or by a closed auction, is never started
    again. *)
Theorem X_start_auction_on_database {P : Type} `{!store.PlayerRepository P}
    (m : auction.Manager.t postgres.EventStore P) (itemName startedBy : string)
    (minBid duration : Z) (now : Time) :
  let id := auctionID now in
  let db := auction.Manager.events m in
  let free := postgres.up db = true /\ (id, 1) ∉ key <$> postgres.rows db in
  let a := auction.mkAuction id itemName startedBy minBid "open" [] 1 [] in
  let r := auction.Manager.StartAuction m itemName startedBy minBid duration now in
  (free ->
   r = (auction.Manager.mk (<[id := a]> (auction.Manager.auctions m))
          (postgres.mkEventStore
             (postgres.rows db
              ++ [stamped (length (postgres.rows db)) (postgres.now db) 0
                    (startedEvent id itemName startedBy minBid duration)])
             true (postgres.now db))
          (auction.Manager.players m),
        Ok a))
  /\ (~ free -> r.1 = m /\ exists e, r.2 = Err e).
Proof.
  simpl. unfold auction.Manager.StartAuction.
  change (auction.PendingEvents
            (auction.New ("auction-" +:+ pretty (auction.Manager.UnixNano now))
               itemName startedBy minBid duration))
    with (auction.mkAuction (auctionID now) itemName startedBy minBid "open" [] 1 [],
          [startedEvent (auctionID now) itemName startedBy minBid duration]).
  cbv iota beta.
  change (event.Append (auction.Manager.events m))
    with (postgres.Append (auction.Manager.events m)).
  destruct (Append_cases (auction.Manager.events m)
              [startedEvent (auctionID now) itemName startedBy minBid duration])
    as [(Hup & _ & Hfresh & _ & Happ) | (Hnot & Hs & e & He)].
  - split.
    + intros _. rewrite Happ. rewrite Hup. reflexivity.
    + intros Hnot. exfalso. apply Hnot. split; [exact Hup|].
      apply (Hfresh (startedEvent (auctionID now) itemName startedBy minBid duration)).
      left.
  - split.
    + intros [Hup Hfree]. exfalso. apply Hnot. split; [exact Hup|].
      split; [apply NoDup_singleton|].
      split; [|constructor; [apply storable_started | constructor]].
      intros x Hx. apply list_elem_of_singleton in Hx. subst x. exact Hfree.
    + intros _.
      destruct (postgres.Append (auction.Manager.events m)
                  [startedEvent (auctionID now) itemName startedBy minBid duration])
        as [es err]. simpl in Hs, He. subst es err. destruct m. simpl. eauto.
Qed.

(** At the coordinator of the scenario, a second [StartAuction] at the
    same reading of the clock: it fails and the coordinator stays as it
    is, with the first auction in its table. *)
Lemma X_start_auction_on_database_witness :
  (auction.Manager.StartAuction scenario.mgr1 "Helm" "admin" 5 60000000000
     scenario.noon).1 = scenario.mgr1.
Proof.
  apply (X_start_auction_on_database scenario.mgr1 "Helm" "admin" 5 60000000000
           scenario.noon).
  intros [_ Hfree]. apply Hfree. vm_compute. left.
Defined.

(** ** Recovery of the open auctions *)

Section Recovery.
Context {S P : Type} `{!event.Store S} `{!store.PlayerRepository P}.
Import auction.

Lemma recoverable_events (m m' : Manager.t S P) (id : string) :
  Manager.events m = Manager.events m' -> recoverable m id = recoverable m' id.
Proof. unfold recoverable, Manager.ReplayAuction. intros ->. reflexivity. Qed.

Lemma recoverable_open (m : Manager.t S P) (id : string) (a : Auction) :
  recoverable m id = Some a ->
  Manager.ReplayAuction m id = Ok a /\ Status a = "open".
Proof.
  unfold recoverable. destruct (Manager.ReplayAuction m id) as [a'|]; [|discriminate].
  destruct (String.eqb_spec (Status a') "open"); [|discriminate].
  intros [= <-]. auto.
Qed.

(** One turn of the loop of [RecoverOpenAuctions]. *)
Lemma recoverLoop_cons (m : Manager.t S P) (id : string) (ids : list string) (n : Z) :
  Manager.recoverLoop m (id :: ids) n
  = match recoverable m id with
    | Some a =>
        Manager.recoverLoop
          (Manager.mk (<[id := a]> (Manager.auctions m)) (Manager.events m)
             (Manager.players m))
          ids (int_wrap (n + 1))
    | None => Manager.recoverLoop m ids n
    end.
Proof.
  simpl. unfold recoverable. destruct (Manager.ReplayAuction m id) as [a|]; [|reflexivity].
  destruct (String.eqb (Status a) "open"); reflexivity.
Qed.

Lemma recoverLoop_spec (ids : list string) (m : Manager.t S P) (n : Z) :
  Manager.events (Manager.recoverLoop m ids n).1 = Manager.events m
  /\ Manager.players (Manager.recoverLoop m ids n).1 = Manager.players m
  /\ forall k,
       Manager.auctions (Manager.recoverLoop m ids n).1 !! k
       = match (if decide (k ∈ ids) then recoverable m k else None) with
         | Some a => Some a
         | None => Manager.auctions m !! k
         end.
Proof.
  revert m n. induction ids as [|id ids IH]; intros m n.
  - split; [reflexivity|]. split; [reflexivity|]. intros k.
    rewrite decide_False by apply not_elem_of_nil. reflexivity.
  - rewrite recoverLoop_cons. destruct (recoverable m id) as [a|] eqn:Hrec.
    + set (m1 := Manager.mk (<[id := a]> (Manager.auctions m)) (Manager.events m)
                   (Manager.players m)).
      destruct (IH m1 (int_wrap (n + 1))) as (He & Hp & Hl).
      split; [exact He|]. split; [exact Hp|]. intros k. rewrite Hl.
      rewrite (recoverable_events m1 m k eq_refl).
      destruct (decide (k ∈ ids)) as [Hin|Hin].
      * rewrite decide_True by (right; exact Hin).
        destruct (recoverable m k) eqn:Hk; [reflexivity|]. simpl.
        rewrite lookup_insert_ne; [reflexivity|]. congruence.
      * simpl. destruct (decide (k = id)) as [->|Hne].
        -- rewrite decide_True by left. rewrite Hrec. apply lookup_insert_eq.
        -- rewrite decide_False by (rewrite elem_of_cons; tauto).
           apply lookup_insert_ne. congruence.
    + destruct (IH m n) as (He & Hp & Hl).
      split; [exact He|]. split; [exact Hp|]. intros k. rewrite Hl.
      destruct (decide (k ∈ ids)) as [Hin|Hin].
      * rewrite decide_True by (right; exact Hin). reflexivity.
      * destruct (decide (k = id)) as [->|Hne].
        -- rewrite decide_True by left. rewrite Hrec. reflexivity.
        -- rewrite decide_False by (rewrite elem_of_cons; tauto). reflexivity.
Qed.

Lemma recoverLoop_count (ids : list string) (m m' : Manager.t S P) (n : Z) :
  Manager.events m = Manager.events m' ->
  (Manager.recoverLoop m ids n).2 = (Manager.recoverLoop m' ids n).2.
Proof.
  revert m m' n. induction ids as [|id ids IH]; intros m m' n Hev; [reflexivity|].
  rewrite !recoverLoop_cons, (recoverable_events m m' id Hev).
  destruct (recoverable m' id); apply IH; simpl; exact Hev.
Qed.

Lemma recoverLoop_size (ids : list string) (m : Manager.t S P) (n : Z) :
  NoDup ids -> (forall k, k ∈ ids -> Manager.auctions m !! k = None) ->
  n = Z.of_nat (size (Manager.auctions m)) ->
  n + Z.of_nat (length ids) <= int_max ->
  (Manager.recoverLoop m ids n).2
  = Z.of_nat (size (Manager.auctions (Manager.recoverLoop m ids n).1)).
Proof.
  revert m n. induction ids as [|id ids IH]; intros m n Hnd Hfree Hn Hbound.
  - exact Hn.
  - apply NoDup_cons in Hnd as [Hid Hnd]. simpl in Hbound.
    rewrite recoverLoop_cons. destruct (recoverable m id) as [a|].
    + apply IH; simpl.
      * exact Hnd.
      * intros k Hk. rewrite lookup_insert_ne by congruence. apply Hfree. right. exact Hk.
      * rewrite map_size_insert_None by (apply Hfree; left).
        rewrite int_wrap_id; unfold int_min, int_max in *; lia.
      * rewrite int_wrap_id; unfold int_min, int_max in *; lia.
    + apply IH; [exact Hnd| |exact Hn|lia].
      intros k Hk. apply Hfree. right. exact Hk.
Qed.

End Recovery.

Section Dedup.
Import auction.

Lemma dedupIDs_spec (started : list event.Event) (seen : gset string) :
  NoDup (Manager.dedupIDs seen started)
  /\ (length (Manager.dedupIDs seen started) <= length started)%nat
  /\ forall k, (k ∈ Manager.dedupIDs seen started)
               <-> (k ∉ seen) /\ (k ∈ (event.AggregateID <$> started)).
Proof.
  revert seen. induction started as [|e started IH]; intros seen; simpl.
  - split; [constructor|]. split; [lia|]. intros k. split; [intros H; inversion H|].
    intros [_ H]. inversion H.
  - destruct (decide (event.AggregateID e ∈ seen)) as [Hin|Hin].
    + destruct (IH seen) as (Hnd & Hlen & Hk). split; [exact Hnd|]. split; [lia|].
      intros k. rewrite Hk, elem_of_cons. split; [tauto|].
      intros [Hns [->|H]]; [contradiction | tauto].
    + destruct (IH ({[event.AggregateID e]} ∪ seen)) as (Hnd & Hlen & Hk).
      split; [|split; [simpl; lia|]].
      * apply NoDup_cons. split; [|exact Hnd]. rewrite Hk.
        rewrite elem_of_union, elem_of_singleton. intros [Hn _]. apply Hn. left.
        reflexivity.
      * intros k. rewrite !elem_of_cons, Hk, elem_of_union, elem_of_singleton.
        destruct (decide (k = event.AggregateID e)) as [->|Hne]; tauto.
Qed.

End Dedup.

(** X14.  What [RecoverOpenAuctions] leaves in the live table: an aggregate id
    of a start event whose events replay to an open auction gets that
    replayed auction; every other id keeps what the table held, so an
    auction whose replay fails or is closed or canceled is not recovered.
    The event store and the players are not touched, and a failed load of
    the start events changes nothing. *)
Theorem X_recovery_table {S P : Type} `{!event.Store S} `{!store.PlayerRepository P}
    (m : auction.Manager.t S P) :
  (forall e, event.LoadByType (auction.Manager.events m) event.AuctionStarted = Err e ->
             auction.Manager.RecoverOpenAuctions m
             = (m, Err (fmt_Errorf_w "loading auction started events" e)))
  /\ (forall started,
        event.LoadByType (auction.Manager.events m) event.AuctionStarted = Ok started ->
        let m' := (auction.Manager.RecoverOpenAuctions m).1 in
        auction.Manager.events m' = auction.Manager.events m
        /\ auction.Manager.players m' = auction.Manager.players m
        /\ forall k,
             auction.Manager.auctions m' !! k
             = match (if decide (k ∈ event.AggregateID <$> started)
                      then recoverable m k else None) with
               | Some a => Some a
               | None => auction.Manager.auctions m !! k
               end).
Proof.
  unfold auction.Manager.RecoverOpenAuctions. split.
  - intros e ->. reflexivity.
  - intros started ->. simpl.
    destruct (auction.Manager.recoverLoop m (auction.Manager.dedupIDs ∅ started) 0)
      as [m' n] eqn:Hloop.
    pose proof (recoverLoop_spec (auction.Manager.dedupIDs ∅ started) m 0)
      as (He & Hp & Hl).
    rewrite Hloop in He, Hp, Hl. simpl in *.
    split; [exact He|]. split; [exact Hp|]. intros k. rewrite Hl.
    destruct (dedupIDs_spec started ∅) as (_ & _ & Hk).
    destruct (decide (k ∈ auction.Manager.dedupIDs ∅ started)) as [Hin|Hin];
      destruct (decide (k ∈ event.AggregateID <$> started)) as [Hin'|Hin'];
      try reflexivity; exfalso.
    + apply Hk in Hin. tauto.
    + apply Hin, Hk. split; [apply not_elem_of_empty | exact Hin'].
Qed.

(** X15.  Recovery is idempotent: run on its own result it returns the same
    live table and the same count. *)
Theorem X_recovery_idempotent {S P : Type} `{!event.Store S}
    `{!store.PlayerRepository P} (m : auction.Manager.t S P) :
  auction.Manager.RecoverOpenAuctions (auction.Manager.RecoverOpenAuctions m).1
  = auction.Manager.RecoverOpenAuctions m.
Proof.
  unfold auction.Manager.RecoverOpenAuctions.
  destruct (event.LoadByType (auction.Manager.events m) event.AuctionStarted)
    as [started|e] eqn:Hload.
  - set (ids := auction.Manager.dedupIDs ∅ started).
    destruct (auction.Manager.recoverLoop m ids 0) as [m1 n1] eqn:H1.
    pose proof (recoverLoop_spec ids m 0) as (He1 & Hp1 & Hl1).
    rewrite H1 in He1, Hp1, Hl1. simpl in He1, Hp1, Hl1. simpl.
    rewrite He1, Hload. fold ids.
    destruct (auction.Manager.recoverLoop m1 ids 0) as [m2 n2] eqn:H2.
    pose proof (recoverLoop_spec ids m1 0) as (He2 & Hp2 & Hl2).
    rewrite H2 in He2, Hp2, Hl2. simpl in He2, Hp2, Hl2.
    pose proof (recoverLoop_count ids m1 m 0 He1) as Hn.
    rewrite H1, H2 in Hn. simpl in Hn. subst n2.
    f_equal. destruct m1 as [t1 e1 p1], m2 as [t2 e2 p2]. simpl in *. f_equal.
    + apply map_eq. intros k. rewrite Hl2.
      rewrite (recoverable_events (auction.Manager.mk t1 e1 p1) m k He1).
      rewrite Hl1. destruct (decide (k ∈ ids)); [|reflexivity].
      destruct (recoverable m k); reflexivity.
    + exact He2.
    + exact Hp2.
  - simpl. rewrite Hload. reflexivity.
Qed.

(** X16.  On a coordinator with an empty live table, as after a failover, the
    number that [RecoverOpenAuctions] reports is the number of auctions
    in the live table afterwards, and each of them is open.  The number
    of start events stays within [int]. *)
Theorem X_recovery_count {S P : Type} `{!event.Store S} `{!store.PlayerRepository P}
    (m : auction.Manager.t S P) (started : list event.Event) :
  auction.Manager.auctions m = ∅ ->
  event.LoadByType (auction.Manager.events m) event.AuctionStarted = Ok started ->
  Z.of_nat (length started) < int_max ->
  let r := auction.Manager.RecoverOpenAuctions m in
  r.2 = Ok (Z.of_nat (size (auction.Manager.auctions r.1)))
  /\ forall k a, auction.Manager.auctions r.1 !! k = Some a -> auction.Status a = "open".
Proof.
  intros Hempty Hload Hbound. simpl.
  unfold auction.Manager.RecoverOpenAuctions. rewrite Hload.
  destruct (dedupIDs_spec started ∅) as (Hnd & Hlen & _).
  pose proof (recoverLoop_size (auction.Manager.dedupIDs ∅ started) m 0 Hnd) as Hsize.
  pose proof (recoverLoop_spec (auction.Manager.dedupIDs ∅ started) m 0) as (_ & _ & Hl).
  destruct (auction.Manager.recoverLoop m (auction.Manager.dedupIDs ∅ started) 0)
    as [m' n]. simpl in *. split.
  - f_equal. apply Hsize.
    + intros k _. rewrite Hempty. apply lookup_empty.
    + rewrite Hempty, map_size_empty. reflexivity.
    + unfold int_max in *. lia.
  - intros k a. rewrite Hl, Hempty, lookup_empty.
    destruct (decide _); [|discriminate].
    destruct (recoverable m k) as [a'|] eqn:Hrec; [|discriminate].
    intros [= <-]. apply (recoverable_open m k a' Hrec).
Qed.

(** At the second replica of the scenario: one auction is recovered, the
    one with the bid of 100. *)
Lemma X_recovery_count_witness :
  (auction.Manager.RecoverOpenAuctions scenario.standby).2 = Ok 1.
Proof.
  destruct (X_recovery_count scenario.standby
              [event.mkEvent "uuid-0" scenario.shield_id event.AuctionStarted
                 (event.marshalAuctionStartedData
                    (event.mkAuctionStartedData "Shield" "admin" 10 300000000000))
                 1 scenario.noon])
    as [Hcount _].
  - reflexivity.
  - vm_compute. reflexivity.
  - vm_compute. reflexivity.
  - rewrite Hcount. vm_compute. reflexivity.
Defined.

(** ** The coordinator in step with the database *)

Section Mirror.
Import auction postgres.

(** What the coordinator finds in the pending buffer after a command the
    aggregate accepted. *)
Lemma apply_accepted (a a1 : Auction) (c : Command) :
  events a = [] -> apply a c = (a1, None) ->
  exists a' e, PendingEvents a1 = (a', [e]) /\ effect a c a' e.
Proof.
  intros Hev Happ.
  destruct (step_cases (mkRunState a [] []) c Hev) as [[err H] | (a' & e & H & Heff)];
    unfold step in H; simpl agg in H; rewrite Happ in H; simpl in H.
  - discriminate H.
  - exists a', e. split; [|exact Heff]. unfold PendingEvents. inversion H. reflexivity.
Qed.

Lemma Load_Ok (db : EventStore) (id : string) (stored : list event.Event) :
  Load db id = Ok stored ->
  up db = true
  /\ stored = orderBy event.Version
                (filter (fun e => event.AggregateID e = id) (rows db)).
Proof. unfold Load. destruct (up db); simpl; [intros [= <-]; auto | discriminate]. Qed.

(** Rows of other aggregates do not show in a [Load]. *)
Lemma Load_frame (db : EventStore) (new : list event.Event) (id : string) :
  Forall (fun e => event.AggregateID e <> id) new ->
  Load (mkEventStore (rows db ++ new) (up db) (now db)) id = Load db id.
Proof.
  intros Hnew. unfold Load. simpl. rewrite filter_app.
  rewrite (filter_none _ new), app_nil_r; [reflexivity|].
  rewrite Forall_forall in Hnew. exact Hnew.
Qed.

(** A new row of the highest version shows last. *)
Lemma Load_snoc (db : EventStore) (row : event.Event) (stored : list event.Event) :
  Load db (event.AggregateID row) = Ok stored ->
  Forall (fun x => event.Version x <= event.Version row) stored ->
  Load (mkEventStore (rows db ++ [row]) (up db) (now db)) (event.AggregateID row)
  = Ok (stored ++ [row]).
Proof.
  intros Hload Hle. apply Load_Ok in Hload as [Hup ->]. unfold Load. simpl.
  rewrite Hup. simpl. rewrite filter_app, filter_cons_True, filter_nil by reflexivity.
  f_equal. unfold orderBy at 1. rewrite fold_left_app. simpl.
  apply insertBy_last, Hle.
Qed.

Lemma mirrored_frame (db : EventStore) (new : list event.Event) (b : Auction) :
  Forall (fun e => event.AggregateID e <> ID b) new ->
  mirrored db b -> mirrored (mkEventStore (rows db ++ new) (up db) (now db)) b.
Proof.
  intros Hnew (Hev & stored & r & Hload & H). split; [exact Hev|].
  exists stored, r. rewrite Load_frame by exact Hnew. split; assumption.
Qed.

Lemma mirrored_version (db : EventStore) (a : Auction) :
  mirrored db a -> up db = true /\ 1 <= Version a.
Proof.
  intros (_ & stored & r & Hload & Hvs & Hrep & _).
  apply Load_Ok in Hload as [Hup _]. split; [exact Hup|].
  destruct stored as [|e stored]; [discriminate Hrep|].
  destruct (Z_le_gt_dec 1 (Version a)) as [Hle|Hgt]; [exact Hle|].
  rewrite seqZ_nil in Hvs by lia. discriminate Hvs.
Qed.

(** No row of a mirrored auction has a version beyond the auction's. *)
Lemma mirrored_fresh (db : EventStore) (a : Auction) (v : Z) :
  mirrored db a -> Version a < v -> (ID a, v) ∉ key <$> rows db.
Proof.
  intros (_ & stored & r & Hload & Hvs & _) Hlt Hin.
  apply Load_Ok in Hload as [_ Hstored].
  apply list_elem_of_fmap in Hin as (row & Hk & Hrow).
  unfold key in Hk. injection Hk as Hid Hv.
  assert (Hin : row ∈ stored).
  { rewrite Hstored. rewrite (proj1 (orderBy_spec _ _)).
    apply list_elem_of_filter. split; [symmetry; exact Hid | exact Hrow]. }
  apply (list_elem_of_fmap_2 event.Version) in Hin.
  rewrite Hvs in Hin. apply elem_of_seqZ in Hin. lia.
Qed.

(** The cycle of the coordinator for one accepted command, on a database
    that mirrors the auction: the event is stored as one new row, and the
    table mirrors the auction as the command left it. *)
Lemma persist_step (db : EventStore) (a a' : Auction) (c : Command) (e : event.Event) :
  mirrored db a -> Version a < int32_max -> effect a c a' e ->
  exists row,
    Append db [e] = (mkEventStore (rows db ++ [row]) (up db) (now db), None)
    /\ event.AggregateID row = ID a
    /\ mirrored (mkEventStore (rows db ++ [row]) (up db) (now db)) a'.
Proof.
  intros Hmir Hbound Heff.
  destruct (mirrored_version db a Hmir) as [Hup Hv1].
  pose proof Heff as (_ & Hid & _ & _ & _ & Hver & Hev' & He & _).
  rewrite int_wrap_id in Hver by (unfold int_min, int_max, int32_max in *; lia).
  assert (Hea : event.AggregateID e = ID a) by (rewrite He; reflexivity).
  assert (Hevn : event.Version e = Version a + 1) by (rewrite He; exact Hver).
  assert (Hst : storable e).
  { split; [rewrite He; destruct c; discriminate|].
    rewrite Hevn. unfold int32_min, int32_max in *. lia. }
  assert (Hkey : key e = (ID a, Version a + 1)).
  { unfold key. rewrite Hea, Hevn. reflexivity. }
  set (row := stamped (length (rows db)) (now db) 0 e).
  exists row.
  destruct (Append_cases db [e]) as [(_ & _ & _ & _ & Happ) | (Hnot & _)].
  - split; [exact Happ|]. split; [exact Hea|].
    destruct Hmir as (_ & stored & r & Hload & Hvs & Hrep & Hsim).
    assert (Hagg : event.AggregateID row = ID a) by exact Hea.
    assert (Hrv : event.Version row = Version a + 1) by exact Hevn.
    split; [exact Hev'|]. exists (stored ++ [row]).
    assert (Hpers : persisted_as e row) by (repeat split).
    assert (Hne : stored <> []) by (intros ->; discriminate Hrep).
    rewrite Replay_nonempty in Hrep by exact Hne.
    destruct (replay_effect a a' r c e row stored Heff Hpers Hsim) as (r' & Hr' & Hsim').
    exists r'. rewrite Hid, <- Hagg. split; [|split; [|split]].
    + apply Load_snoc; [rewrite Hagg; exact Hload|].
      apply Forall_forall. intros x Hx.
      apply (list_elem_of_fmap_2 event.Version) in Hx.
      rewrite Hvs in Hx. apply elem_of_seqZ in Hx. lia.
    + rewrite fmap_app, Hvs, Hver.
      change (event.Version <$> [row]) with [event.Version row]. rewrite Hrv.
      rewrite (seqZ_app 1 (Version a) 1) by lia.
      f_equal. unfold seqZ. simpl. f_equal. lia.
    + rewrite Replay_nonempty by (intros H; apply app_eq_nil in H as [_ [=]]).
      rewrite replayLoop_app, Hrep. simpl. rewrite Hr'. reflexivity.
    + exact Hsim'.
  - exfalso. apply Hnot. split; [exact Hup|]. split; [apply NoDup_singleton|].
    split; [|constructor; [exact Hst | constructor]].
    intros x Hx. apply list_elem_of_singleton in Hx. subst x. rewrite Hkey.
    apply (mirrored_fresh db a _ Hmir). lia.
Qed.

Lemma replayEvent_inv (a a' : Auction) (e : event.Event) :
  replayEvent a e = Ok a' ->
  events a' = events a
  /\ (Status a' = "open" -> Status a = "open" \/ event.Type' e = event.AuctionStarted).
Proof.
  unfold replayEvent.
  destruct (String.eqb_spec (event.Type' e) event.AuctionStarted) as [Hs|Hs].
  { destruct (event.unmarshalAuctionStartedData _); intros [= <-]. simpl. auto. }
  destruct (String.eqb (event.Type' e) event.AuctionBidPlaced).
  { destruct (event.unmarshalBidPlacedData _); intros [= <-]. simpl. auto. }
  destruct (String.eqb (event.Type' e) event.AuctionClosed).
  { intros [= <-]. simpl. split; [reflexivity | discriminate]. }
  destruct (String.eqb (event.Type' e) event.AuctionCancelled).
  { intros [= <-]. simpl. split; [reflexivity | discriminate]. }
  intros [= <-]. simpl. auto.
Qed.

(** Only a start event opens a replayed auction, and replay leaves the
    pending buffer alone. *)
Lemma replayLoop_inv (evs : list event.Event) (a r : Auction) :
  replayLoop a evs = Ok r ->
  events r = events a
  /\ (Status r = "open" ->
      Status a = "open"
      \/ Exists (fun e => event.Type' e = event.AuctionStarted) evs).
Proof.
  revert a. induction evs as [|e evs IH]; intros a; simpl.
  - intros [= <-]. auto.
  - destruct (replayEvent a e) as [a1|] eqn:He; [|discriminate].
    intros Hr. apply replayEvent_inv in He as [Hev Hst].
    destruct (IH a1 Hr) as [Hev' Hst']. split; [congruence|].
    intros Hopen. destruct (Hst' Hopen) as [H1|H1].
    + destruct (Hst H1) as [H0|H0]; [left; exact H0 | right; left; exact H0].
    + right. right. exact H1.
Qed.

End Mirror.

(** X17.  Starting an auction keeps the coordinator in step with its database,
    whether the start event could be stored or not, when the table holds
    no row yet for the id derived from the reading of the clock; on a
    database that answers, the auction is live afterwards. *)
Theorem X_start_keeps_in_step {P : Type} `{!store.PlayerRepository P}
    (m : auction.Manager.t postgres.EventStore P) (itemName startedBy : string)
    (minBid duration : Z) (now : Time) :
  in_step m ->
  Forall (fun e => event.AggregateID e <> auctionID now)
    (postgres.rows (auction.Manager.events m)) ->
  let m' := (auction.Manager.StartAuction m itemName startedBy minBid duration now).1 in
  in_step m'
  /\ (postgres.up (auction.Manager.events m) = true ->
      is_Some (auction.Manager.auctions m' !! auctionID now)).
Proof.
  intros Hstep Hnone. simpl. unfold auction.Manager.StartAuction.
  change (auction.PendingEvents
            (auction.New ("auction-" +:+ pretty (auction.Manager.UnixNano now))
               itemName startedBy minBid duration))
    with (auction.mkAuction (auctionID now) itemName startedBy minBid "open" [] 1 [],
          [startedEvent (auctionID now) itemName startedBy minBid duration]).
  cbv iota beta.
  change (event.Append (auction.Manager.events m))
    with (postgres.Append (auction.Manager.events m)).
  set (db := auction.Manager.events m) in *.
  set (e := startedEvent (auctionID now) itemName startedBy minBid duration).
  assert (Hfree : key e ∉ key <$> postgres.rows db).
  { intros Hin. apply list_elem_of_fmap in Hin as (row & Hk & Hrow).
    rewrite Forall_forall in Hnone. apply (Hnone row Hrow).
    unfold key in Hk. injection Hk as Hid _. symmetry. exact Hid. }
  destruct (Append_cases db [e]) as [(Hup & _ & _ & _ & Happ) | (Hnot & Hs & err & He)].
  - rewrite Happ. simpl. split; [|intros _; rewrite lookup_insert_eq; eauto].
    set (row := stamped (length (postgres.rows db)) (postgres.now db) 0 e).
    intros k b Hk. simpl in Hk. apply lookup_insert_Some in Hk as [[<- <-]|[Hne Hk]].
    + split; [reflexivity|]. split; [reflexivity|]. split; [reflexivity|]. simpl.
      assert (Hload : postgres.Load
                        (postgres.mkEventStore (postgres.rows db ++ [row])
                           (postgres.up db) (postgres.now db)) (auctionID now)
                      = Ok [row]).
      { unfold postgres.Load. simpl. rewrite Hup. simpl.
        rewrite filter_app, filter_cons_True, filter_nil by reflexivity.
        rewrite (filter_none _ (postgres.rows db)); [reflexivity|].
        rewrite Forall_forall in Hnone. exact Hnone. }
      destruct (replay_started (auctionID now) itemName startedBy minBid duration [row])
        as (r & Hr & Hsim).
      { constructor; [repeat split | constructor]. }
      exists [row], r. split; [exact Hload|]. split; [reflexivity|].
      split; [exact Hr | exact Hsim].
    + destruct (Hstep k b Hk) as (Hid & Hopen & Hmir).
      split; [exact Hid|]. split; [exact Hopen|].
      apply (mirrored_frame db [row] b); [|exact Hmir].
      constructor; [|constructor].
      change (auctionID now <> auction.ID b). rewrite Hid. exact Hne.
  - destruct (postgres.Append db [e]) as [es err'].
    simpl in Hs, He. subst es err'. simpl. split.
    + intros k b Hk. apply (Hstep k b Hk).
    + intros Hup. exfalso. apply Hnot. split; [exact Hup|].
      split; [apply NoDup_singleton|].
      split; [|constructor; [apply storable_started | constructor]].
      intros x Hx. apply list_elem_of_singleton in Hx. subst x. exact Hfree.
Qed.

(** At the coordinator of the scenario, on its empty table: the auction
    is live after [StartAuction]. *)
Lemma X_start_keeps_in_step_witness :
  is_Some (auction.Manager.auctions scenario.mgr1 !! auctionID scenario.noon).
Proof.
  destruct (X_start_keeps_in_step scenario.mgr0 "Shield" "admin" 10 300000000000
              scenario.noon) as [_ Hlive].
  - intros id a Hk.
    change (auction.Manager.auctions scenario.mgr0)
      with (∅ : gmap string auction.Auction) in Hk.
    rewrite lookup_empty in Hk. discriminate Hk.
  - apply Forall_nil_2.
  - apply Hlive. reflexivity.
Defined.

(** The coordinator of the scenario is in step with its database after
    [StartAuction]. *)
Lemma mgr1_in_step : in_step scenario.mgr1.
Proof.
  intros id a Hk.
  assert (Ht : auction.Manager.auctions scenario.mgr1
               = <[scenario.shield_id := scenario.shield_live]> ∅)
    by (vm_compute; reflexivity).
  rewrite Ht in Hk. apply lookup_insert_Some in Hk as [[<- <-]|[_ Hk]].
  - split; [reflexivity|]. split; [reflexivity|]. split; [reflexivity|].
    exists [scenario.started_row], scenario.shield_live.
    vm_compute. repeat split.
  - rewrite lookup_empty in Hk. discriminate Hk.
Defined.

Lemma mgr1_version (a : auction.Auction) :
  auction.Manager.auctions scenario.mgr1 !! scenario.shield_id = Some a ->
  auction.Version a < postgres.int32_max.
Proof. intros Ha. vm_compute in Ha. injection Ha as <-. reflexivity. Defined.

(** X18.  A bid, accepted or not, keeps the coordinator in step with its
    database, and it neither adds an auction to the live table nor
    removes one.  The version of the auction stays within the 32 bits
    of the column [version INTEGER]: beyond them the table refuses the
    event of the bid. *)
Theorem X_bid_keeps_in_step {P : Type} `{!store.PlayerRepository P}
    (m : auction.Manager.t postgres.EventStore P) (id discordID : string)
    (amount : Z) (now : Time) :
  in_step m ->
  (forall a, auction.Manager.auctions m !! id = Some a ->
             auction.Version a < postgres.int32_max) ->
  let m' := (auction.Manager.PlaceBid m id discordID amount now).1 in
  in_step m'
  /\ forall k, is_Some (auction.Manager.auctions m' !! k)
               <-> is_Some (auction.Manager.auctions m !! k).
Proof.
  intros Hstep Hbound. simpl. unfold auction.Manager.PlaceBid.
  destruct (auction.Manager.auctions m !! id) as [a|] eqn:Hlook;
    [|split; [exact Hstep | reflexivity]].
  destruct (Hstep id a Hlook) as (Hid & Hopen & Hmir).
  destruct (store.GetByDiscordID (auction.Manager.players m) discordID) as [player|err];
    [|split; [exact Hstep | reflexivity]].
  destruct (auction.PlaceBid a (store.ID player) amount (store.DKP player) now)
    as [a1 [err|]] eqn:HP.
  - apply PlaceBid_rejected in HP. subst a1. simpl.
    rewrite insert_id by exact Hlook. split; [|reflexivity].
    intros k b Hk. apply (Hstep k b Hk).
  - destruct (apply_accepted a a1
                (place_bid (store.ID player) amount (store.DKP player) now)
                (proj1 Hmir) HP) as (a' & e & -> & Heff).
    destruct (persist_step _ a a' _ e Hmir (Hbound a eq_refl) Heff)
      as (row & Happ & Hrow & Hmir').
    change (event.Append (auction.Manager.events m))
      with (postgres.Append (auction.Manager.events m)).
    rewrite Happ. simpl. split.
    + intros k b Hk. simpl in Hk. apply lookup_insert_Some in Hk as [[<- <-]|[Hne Hk]].
      * destruct Heff as (_ & Hid' & _ & _ & _ & _ & _ & _ & Hst & _).
        split; [congruence|]. split; [exact Hst | exact Hmir'].
      * destruct (Hstep k b Hk) as (Hidb & Hopenb & Hmirb).
        split; [exact Hidb|]. split; [exact Hopenb|].
        apply (mirrored_frame _ [row] b); [|exact Hmirb].
        constructor; [congruence | constructor].
    + intros k. destruct (decide (k = id)) as [->|Hne].
      * rewrite lookup_insert_eq, Hlook. split; eauto.
      * rewrite lookup_insert_ne by congruence. reflexivity.
Qed.

(** At the coordinator of the scenario: after the bid of 100 the table
    mirrors the auction with its one bid. *)
Lemma X_bid_keeps_in_step_witness :
  mirrored (auction.Manager.events scenario.mgr2) scenario.shield_bid.
Proof.
  apply (proj1 (X_bid_keeps_in_step scenario.mgr1 scenario.shield_id "discord-1" 100
                  scenario.noon mgr1_in_step mgr1_version)
           scenario.shield_id scenario.shield_bid).
  vm_compute. reflexivity.
Defined.

(** X19.  Closing a live auction keeps the coordinator in step with its
    database: the auction leaves the live table, and its stored events
    replay to the closed auction, one version on, with the same bids.
    The version of the auction stays within the 32 bits of the column
    [version INTEGER]: beyond them the table refuses the close event. *)
Theorem X_close_keeps_in_step {P : Type} `{!store.PlayerRepository P}
    (m : auction.Manager.t postgres.EventStore P) (id : string) :
  in_step m ->
  (forall a, auction.Manager.auctions m !! id = Some a ->
             auction.Version a < postgres.int32_max) ->
  let m' := (auction.Manager.CloseAuction m id).1 in
  in_step m'
  /\ auction.Manager.auctions m' = delete id (auction.Manager.auctions m)
  /\ forall a, auction.Manager.auctions m !! id = Some a ->
       exists r, auction.Manager.ReplayAuction m' id = Ok r
                 /\ auction.Status r = "closed"
                 /\ auction.Version r = auction.Version a + 1
                 /\ bid_key <$> auction.Bids r = bid_key <$> auction.Bids a.
Proof.
  intros Hstep Hbound. simpl. unfold auction.Manager.CloseAuction.
  destruct (auction.Manager.auctions m !! id) as [a|] eqn:Hlook.
  2:{ split; [exact Hstep|]. split; [|intros a [=]].
      simpl. symmetry. apply delete_id. exact Hlook. }
  destruct (Hstep id a Hlook) as (Hid & Hopen & Hmir).
  destruct (mirrored_version _ a Hmir) as [_ Hv1].
  specialize (Hbound a eq_refl).
  destruct (auction.Close a) as [[a1 w] [err|]] eqn:HC.
  { exfalso. unfold auction.Close in HC. rewrite (eqb_open_true _ Hopen) in HC.
    destruct (auction.highestBid _); discriminate HC. }
  assert (Happly : apply a close = (a1, None)) by (unfold apply; rewrite HC; reflexivity).
  destruct (apply_accepted a a1 close (proj1 Hmir) Happly) as (a' & e & -> & Heff).
  destruct (persist_step _ a a' _ e Hmir Hbound Heff) as (row & Happ & Hrow & Hmir').
  change (event.Append (auction.Manager.events m))
    with (postgres.Append (auction.Manager.events m)).
  rewrite Happ.
  set (db' := postgres.mkEventStore _ _ _) in *.
  set (m' := auction.Manager.mk (delete id (auction.Manager.auctions m)) db'
               (auction.Manager.players m)).
  assert (Hfst : forall (msg : result string), (m', msg).1 = m') by reflexivity.
  assert (Hgoal : in_step m'
            /\ auction.Manager.auctions m' = delete id (auction.Manager.auctions m)
            /\ forall a0, Some a = Some a0 ->
                 exists r, auction.Manager.ReplayAuction m' id = Ok r
                           /\ auction.Status r = "closed"
                           /\ auction.Version r = auction.Version a0 + 1
                           /\ bid_key <$> auction.Bids r = bid_key <$> auction.Bids a0).
  { split; [|split; [reflexivity|]].
    - intros k b Hk. simpl in Hk. apply lookup_delete_Some in Hk as [Hne Hk].
      destruct (Hstep k b Hk) as (Hidb & Hopenb & Hmirb).
      split; [exact Hidb|]. split; [exact Hopenb|].
      apply (mirrored_frame _ [row] b); [|exact Hmirb].
      constructor; [congruence | constructor].
    - intros a0 [= <-].
      destruct Hmir' as (_ & stored & r & Hload & _ & Hrep & Hsim).
      destruct Heff as (_ & Hid' & _ & _ & _ & Hver & _ & _ & Hst & Hbids).
      destruct Hsim as (_ & _ & _ & _ & Rst & Rver & Rbids & _).
      exists r. unfold auction.Manager.ReplayAuction.
      change (event.Load (auction.Manager.events m') id) with (postgres.Load db' id).
      rewrite <- Hid, <- Hid', Hload.
      split; [exact Hrep|]. split; [congruence|]. split; [|congruence].
      rewrite Rver, Hver. apply int_wrap_id.
      unfold int_min, int_max, postgres.int32_max in *. lia. }
  destruct w as [w0|]; exact Hgoal.
Qed.

(** At the coordinator of the scenario: after the close the stored
    events of the auction replay to a closed auction. *)
Lemma X_close_keeps_in_step_witness :
  exists r,
    auction.Manager.ReplayAuction
      (auction.Manager.CloseAuction scenario.mgr1 scenario.shield_id).1
      scenario.shield_id = Ok r
    /\ auction.Status r = "closed".
Proof.
  destruct (X_close_keeps_in_step scenario.mgr1 scenario.shield_id
              mgr1_in_step mgr1_version) as (_ & _ & Hreplay).
  destruct (Hreplay scenario.shield_live) as (r & Hr & Hst & _).
  - vm_compute. reflexivity.
  - exists r. split; [exact Hr | exact Hst].
Defined.

(** X20.  After a failover, recovery on a replica with an empty live table
    restores every auction that the coordinator in step with the
    database held: under the same id, open, reproducing the live auction
    up to the times of the bids, and mirrored by the table in its turn. *)
Theorem X_failover_restores_live_auctions {P : Type} `{!store.PlayerRepository P}
    (m : auction.Manager.t postgres.EventStore P) (pls : P) (id : string)
    (a : auction.Auction) :
  in_step m ->
  auction.Manager.auctions m !! id = Some a ->
  let replica :=
    (auction.Manager.RecoverOpenAuctions
       (auction.Manager.NewManager (auction.Manager.events m) pls)).1 in
  auction.Manager.events replica = auction.Manager.events m
  /\ exists r stored,
       auction.Manager.auctions replica !! id = Some r
       /\ postgres.Load (auction.Manager.events m) id = Ok stored
       /\ reproduces r a stored
       /\ auction.ID r = id
       /\ auction.Status r = "open"
       /\ mirrored (auction.Manager.events m) r.
Proof.
  intros Hstep Hlook. simpl.
  destruct (Hstep id a Hlook) as (Hid & Hopen & (Hev & stored & r & Hload & Hvs & Hrep & Hsim)).
  rewrite Hid in Hload.
  destruct (Load_Ok _ _ _ Hload) as [Hup Hstored].
  set (db := auction.Manager.events m) in *.
  set (m0 := auction.Manager.NewManager db pls).
  unfold auction.Manager.RecoverOpenAuctions.
  change (event.LoadByType (auction.Manager.events m0) event.AuctionStarted)
    with (postgres.LoadByType db event.AuctionStarted).
  unfold postgres.LoadByType. rewrite Hup. simpl.
  set (started := postgres.orderBy event.CreatedAt
                    (filter (fun e => event.Type' e = event.AuctionStarted)
                       (postgres.rows db))).
  pose proof (recoverLoop_spec (auction.Manager.dedupIDs ∅ started) m0 0)
    as (He & _ & Hl).
  destruct (auction.Manager.recoverLoop m0 (auction.Manager.dedupIDs ∅ started) 0)
    as [m1 n]. simpl in *. split; [exact He|].
  pose proof Hsim as (Rid & _ & _ & _ & Rst & Rver & _ & Rtimes).
  assert (Hne : stored <> []) by (intros ->; discriminate Hrep).
  pose proof Hrep as Hloop. rewrite Replay_nonempty in Hloop by exact Hne.
  destruct (replayLoop_inv stored auction.zero_Auction r Hloop) as [Rev Rstart].
  assert (Hin : id ∈ auction.Manager.dedupIDs ∅ started).
  { apply (dedupIDs_spec started ∅). split; [apply not_elem_of_empty|].
    destruct Rstart as [H0|Hex]; [congruence | discriminate H0 |].
    apply Exists_exists in Hex as (e0 & He0 & Hty).
    rewrite Hstored, (proj1 (orderBy_spec _ _)) in He0.
    apply list_elem_of_filter in He0 as [Hagg Hrow].
    apply list_elem_of_fmap. exists e0. split; [symmetry; exact Hagg|].
    unfold started. rewrite (proj1 (orderBy_spec _ _)).
    apply list_elem_of_filter. split; assumption. }
  assert (Hrec : recoverable m0 id = Some r).
  { unfold recoverable, auction.Manager.ReplayAuction.
    change (event.Load (auction.Manager.events m0) id) with (postgres.Load db id).
    rewrite Hload, Hrep, Rst, Hopen. reflexivity. }
  exists r, stored. rewrite Hl, decide_True by exact Hin. rewrite Hrec.
  split; [reflexivity|]. split; [exact Hload|]. split; [exact Hsim|].
  split; [congruence|]. split; [congruence|].
  split; [exact Rev|]. exists stored, r.
  split; [rewrite Rid, Hid; exact Hload|]. split; [rewrite Rver; exact Hvs|].
  split; [exact Hrep|]. repeat split. exact Rtimes.
Qed.

(** At the scenario: a replica on the database of the coordinator
    recovers its auction. *)
Lemma X_failover_restores_live_auctions_witness :
  is_Some
    (auction.Manager.auctions
       (auction.Manager.RecoverOpenAuctions
          (auction.Manager.NewManager (auction.Manager.events scenario.mgr1)
             scenario.repo1)).1
     !! scenario.shield_id).
Proof.
  destruct (X_failover_restores_live_auctions scenario.mgr1 scenario.repo1
              scenario.shield_id scenario.shield_live mgr1_in_step)
    as (_ & r & stored & Hr & _).
  - vm_compute. reflexivity.
  - rewrite Hr. eauto.
Defined.

(** ** The DKP manager on the database *)

(** X21.  The table keeps one balance change of a player at most.  The events
    of [AwardDKP] and [DeductDKP] all carry version 0: once the table
    holds a row of that version for the player, a later award or
    deduction leaves the table as it is, whatever it does to the balance;
    before that, on a database that answers, an award whose update of
    the balance succeeded adds its event as the one new row. *)
Theorem X_dkp_history_keeps_first_change {P : Type} `{!store.PlayerRepository P}
    (m : dkp.Manager.t postgres.EventStore P) (playerID reason : string) (amount : Z) :
  let db := dkp.Manager.events m in
  let logged := (playerID, 0) ∈ key <$> postgres.rows db in
  (logged ->
   dkp.Manager.events (dkp.Manager.AwardDKP m playerID amount reason).1 = db
   /\ dkp.Manager.events (dkp.Manager.DeductDKP m playerID amount reason).1 = db)
  /\ (~ logged -> postgres.up db = true ->
      (store.UpdateDKP (dkp.Manager.players m) playerID amount).2 = None ->
      postgres.rows (dkp.Manager.events (dkp.Manager.AwardDKP m playerID amount reason).1)
      = postgres.rows db
        ++ [stamped (length (postgres.rows db)) (postgres.now db) 0
              (event.mkEvent "" playerID event.DKPAwarded
                 (event.marshalDKPChangeData
                    (event.mkDKPChangeData playerID amount reason))
                 0 zero_Time)]).
Proof.
  simpl. split.
  - intros Hlogged.
    assert (Hkeep : forall evt, key evt = (playerID, 0) ->
              (postgres.Append (dkp.Manager.events m) [evt]).1 = dkp.Manager.events m).
    { intros evt Hkey.
      destruct (Append_cases (dkp.Manager.events m) [evt])
        as [(_ & _ & Hfresh & _ & _) | (_ & Hs & _)]; [|exact Hs].
      exfalso. apply (Hfresh evt); [left|]. rewrite Hkey. exact Hlogged. }
    unfold dkp.Manager.AwardDKP, dkp.Manager.DeductDKP. split.
    + destruct (store.UpdateDKP _ _ _) as [pls [e|]]; [reflexivity|].
      change (event.Append (dkp.Manager.events m))
        with (postgres.Append (dkp.Manager.events m)).
      specialize (Hkeep (event.mkEvent "" playerID event.DKPAwarded
                           (event.marshalDKPChangeData
                              (event.mkDKPChangeData playerID amount reason))
                           0 zero_Time) eq_refl).
      destruct (postgres.Append _ _) as [es err]. exact Hkeep.
    + destruct (store.UpdateDKP _ _ _) as [pls [e|]]; [reflexivity|].
      change (event.Append (dkp.Manager.events m))
        with (postgres.Append (dkp.Manager.events m)).
      specialize (Hkeep (event.mkEvent "" playerID event.DKPDeducted
                           (event.marshalDKPChangeData
                              (event.mkDKPChangeData playerID (int_wrap (- amount)) reason))
                           0 zero_Time) eq_refl).
      destruct (postgres.Append _ _) as [es err]. exact Hkeep.
  - intros Hfree Hup Hupd. unfold dkp.Manager.AwardDKP.
    destruct (store.UpdateDKP _ _ _) as [pls [e|]]; [discriminate Hupd|].
    change (event.Append (dkp.Manager.events m))
      with (postgres.Append (dkp.Manager.events m)).
    set (evt := event.mkEvent "" playerID event.DKPAwarded _ 0 zero_Time).
    destruct (Append_cases (dkp.Manager.events m) [evt])
      as [(_ & _ & _ & _ & Happ) | (Hnot & _)].
    + rewrite Happ. reflexivity.
    + exfalso. apply Hnot. split; [exact Hup|]. split; [apply NoDup_singleton|].
      split.
      * intros x Hx. apply list_elem_of_singleton in Hx. subst x. exact Hfree.
      * constructor; [|constructor].
        split; [discriminate | unfold postgres.int32_min, postgres.int32_max; simpl; lia].
Qed.

(** At the scenario of a registration and two awards over the database:
    the second award leaves the table as the first left it. *)
Lemma X_dkp_history_keeps_first_change_witness :
  let m1 := (dkp.Manager.RegisterPlayer scenario.dkp0_pg "d1" "Legolas").1 in
  let m2 := (dkp.Manager.AwardDKP m1 "test-id-d1" 50 "raid attendance").1 in
  dkp.Manager.events (dkp.Manager.AwardDKP m2 "test-id-d1" 100 "boss kill").1
  = dkp.Manager.events m2.
Proof.
  intros m1 m2.
  destruct (X_dkp_history_keeps_first_change m2 "test-id-d1" "boss kill" 100)
    as [Hlogged _].
  apply Hlogged. vm_compute. right. left.
Defined.
